(** * Staticman: the entry-processing pipeline

    A shallow embedding of [lib/Staticman.js] (the version that has
    [processEntry], [_applyInternalFields] and the [frontmatter] format)
    and the properties of its specification.

    Conventions of the model.
    - A JavaScript string is a [string]: each character stands for one
      code unit below 256.  Of those, ECMAScript's WhiteSpace and
      LineTerminator code units are 9, 10, 11, 12, 13, 32 and 160.
    - A JavaScript object is the association list of its own enumerable
      properties, in [Object.keys] order: the keys that are array indices
      in ascending order, then the other keys in the order of their
      creation.  Every object of the pipeline is a plain one, and inherits
      the members of [Object.prototype]: [get] reads an own property,
      [member] is the read [o[k]], which also finds an inherited member.
      No object has a property of its own named [__proto__], the one
      name whose assignment creates no property.
    - A number is an integer of at most 15 significant digits, or a safe
      integer: it stands for the nearest double, which JavaScript prints
      with the digits of the integer.
    - The collaborators (GitHub gateway, Akismet, js-yaml, md5, slug,
      markdown-table, the site configuration schema, the clock) are the
      fields of a [World]. *)

From Stdlib Require Import String Ascii List ZArith Lia Bool DecimalString.
Import ListNotations.
Open Scope string_scope.

(** ** JavaScript values *)

#[warnings="-register-all"]
Inductive value : Type :=
| VUndefined
| VNull
| VBool (b : bool)
| VNum (n : Z)
| VStr (s : string)
| VArr (xs : list value)
| VObj (o : list (string * value))
| VFun (name : string).   (* a built-in function, by its [name] property *)

Definition obj : Type := list (string * value).

(** ToBoolean. *)
Definition truthy (v : value) : bool :=
  match v with
  | VUndefined | VNull => false
  | VBool b => b
  | VNum n => negb (n =? 0)%Z
  | VStr s => negb (s =? "")
  | VArr _ | VObj _ | VFun _ => true
  end.

(** [v === undefined] and [v === ''] . *)
Definition is_undefined (v : value) : bool :=
  match v with VUndefined => true | _ => false end.

Definition is_empty_string (v : value) : bool :=
  match v with VStr s => s =? "" | _ => false end.

(** [v === s] for a string literal [s]. *)
Definition strict_eq_str (v : value) (s : string) : bool :=
  match v with VStr t => t =? s | _ => false end.

(** Decimal digits without the zeros at their end. *)
Fixpoint strip_zeros (digits : string) : string :=
  match digits with
  | "" => ""
  | String c r =>
      match strip_zeros r with
      | "" => if (c =? "0")%char then "" else String c ""
      | r' => String c r'
      end
  end.

(** The writing [d.ddde+x] of a number from its decimal digits. *)
Definition exponent_form (digits : string) : string :=
  let x := NilZero.string_of_uint (Nat.to_uint (String.length digits - 1)) in
  match strip_zeros digits with
  | "" => "0"
  | String d "" => String d "" ++ "e+" ++ x
  | String d r => String d "" ++ "." ++ r ++ "e+" ++ x
  end.

(** Number::toString on an integer: its decimal digits below 10^21 in
    magnitude, the exponent form from there on. *)
Definition Z_to_string (n : Z) : string :=
  if (Z.abs n <? 1000000000000000000000)%Z
  then NilZero.string_of_int (Z.to_int n)
  else (if (n <? 0)%Z then "-" else "")
       ++ exponent_form (NilZero.string_of_uint (N.to_uint (Z.abs_N n))).

(** ToString. *)
Fixpoint js_toString (v : value) : string :=
  match v with
  | VUndefined => "undefined"
  | VNull => "null"
  | VBool true => "true"
  | VBool false => "false"
  | VNum n => Z_to_string n
  | VStr s => s
  | VArr xs =>
      (fix join (l : list value) : string :=
         match l with
         | [] => ""
         | x :: r =>
             let e := match x with
                      | VUndefined | VNull => ""
                      | _ => js_toString x
                      end in
             match r with
             | [] => e
             | _ => e ++ "," ++ join r
             end
         end) xs
  | VObj _ => "[object Object]"
  | VFun name => "function " ++ name ++ "() { [native code] }"
  end.

(** ** Strings *)

Definition is_white_space (c : ascii) : bool :=
  let n := nat_of_ascii c in
  ((n =? 9) || (n =? 10) || (n =? 11) || (n =? 12) || (n =? 13)
   || (n =? 32) || (n =? 160))%nat.

Definition is_line_terminator (c : ascii) : bool :=
  let n := nat_of_ascii c in ((n =? 10) || (n =? 13))%nat.

Fixpoint trimStart (s : string) : string :=
  match s with
  | "" => ""
  | String c r => if is_white_space c then trimStart r else s
  end.

Fixpoint trimEnd (s : string) : string :=
  match s with
  | "" => ""
  | String c r =>
      match trimEnd r with
      | "" => if is_white_space c then "" else String c ""
      | r' => String c r'
      end
  end.

(** [String.prototype.trim]. *)
Definition trim (s : string) : string := trimEnd (trimStart s).

Fixpoint all_white_space (s : string) : bool :=
  match s with
  | "" => true
  | String c r => is_white_space c && all_white_space r
  end.

Definition lower_char (c : ascii) : ascii :=
  let n := nat_of_ascii c in
  if (((65 <=? n) && (n <=? 90))
      || ((192 <=? n) && (n <=? 222) && negb (n =? 215)))%nat
  then ascii_of_nat (n + 32) else c.

(** [String.prototype.toLowerCase]. *)
Fixpoint toLowerCase (s : string) : string :=
  match s with
  | "" => ""
  | String c r => String (lower_char c) (toLowerCase r)
  end.

(** [s.startsWith(p)], used for the literal match of a token. *)
Fixpoint startsWith (p s : string) : bool :=
  match p, s with
  | "", _ => true
  | String a p', String b s' => (a =? b)%char && startsWith p' s'
  | String _ _, "" => false
  end.

Fixpoint drop (n : nat) (s : string) : string :=
  match n, s with
  | O, _ => s
  | S k, String _ r => drop k r
  | S _, "" => ""
  end.

Fixpoint last_char (s : string) : option ascii :=
  match s with
  | "" => None
  | String c "" => Some c
  | String _ r => last_char r
  end.

Fixpoint remove_last (s : string) : string :=
  match s with
  | "" => ""
  | String _ "" => ""
  | String c r => String c (remove_last r)
  end.

(** [s.split('.')]. *)
Fixpoint split_dots (s : string) : list string :=
  match s with
  | "" => [""]
  | String c r =>
      if (c =? ".")%char then "" :: split_dots r
      else match split_dots r with
           | [] => [String c ""]
           | h :: t => String c h :: t
           end
  end.

(** ** Objects *)

Fixpoint lookup (k : string) (o : obj) : option value :=
  match o with
  | [] => None
  | (k', v) :: r => if k' =? k then Some v else lookup k r
  end.

(** The own property [k] of [o], [undefined] when [o] has none: what
    [o[k]] reads for a key [k] of [Object.keys(o)] and for a name that no
    object inherits ([parent], [subscribe], [branch], ...), and what the
    object-path package reads, which looks at own properties only. *)
Definition get (o : obj) (k : string) : value :=
  match lookup k o with
  | Some v => v
  | None => VUndefined
  end.

(** The names of the functions that [Object.prototype] holds, each under
    its own name. *)
Definition prototype_functions : list string :=
  ["__defineGetter__"; "__defineSetter__"; "hasOwnProperty";
   "__lookupGetter__"; "__lookupSetter__"; "isPrototypeOf";
   "propertyIsEnumerable"; "toString"; "valueOf"; "toLocaleString"].


(** What a plain object inherits under the name [k]: the function
    [Object] as [constructor], the functions above, and [Object.prototype]
    itself, which has no enumerable property, as [__proto__]. *)
Definition inherited (k : string) : value :=
  if k =? "constructor" then VFun "Object"
  else if existsb (String.eqb k) prototype_functions then VFun k
  else if k =? "__proto__" then VObj []
  else VUndefined.

(** [o[k]] on a plain object: the own property, or else the inherited
    member. *)
Definition member (o : obj) (k : string) : value :=
  match lookup k o with
  | Some v => v
  | None => inherited k
  end.

(** An array index: the canonical decimal writing ("0", "1", "12", never
    "01") of an integer up to 2^32 - 2.  The engine lists the keys that
    are array indices before the others, in ascending order. *)
Definition array_index (k : string) : option N :=
  match NilZero.uint_of_string k with
  | Some u =>
      let n := N.of_uint u in
      if (NilZero.string_of_uint (N.to_uint n) =? k) && (n <=? 4294967294)%N
      then Some n else None
  | None => None
  end.

(** [o[k] = v] on a property that [o] has: it keeps its place. *)
Fixpoint update (k : string) (v : value) (o : obj) : obj :=
  match o with
  | [] => []
  | (k', v') :: r => if k' =? k then (k, v) :: r else (k', v') :: update k v r
  end.

(** The place of a new array index [i]: after the array indices below
    it. *)
Fixpoint insert_index (i : N) (k : string) (v : value) (o : obj) : obj :=
  match o with
  | [] => [(k, v)]
  | (k', v') :: r =>
      match array_index k' with
      | Some j =>
          if (j <? i)%N then (k', v') :: insert_index i k v r
          else (k, v) :: o
      | None => (k, v) :: o
      end
  end.

(** [o[k] = v]: an existing property keeps its place; a new one comes
    last, or among the array indices if it is one. *)
Definition set (k : string) (v : value) (o : obj) : obj :=
  match lookup k o with
  | Some _ => update k v o
  | None =>
      match array_index k with
      | Some i => insert_index i k v o
      | None => (o ++ [(k, v)])%list
      end
  end.

(** [delete o[k]]. *)
Fixpoint delete (k : string) (o : obj) : obj :=
  match o with
  | [] => []
  | (k', v') :: r => if k' =? k then delete k r else (k', v') :: delete k r
  end.

(** [Object.keys(o)]. *)
Definition keys (o : obj) : list string := map fst o.

(** [Object.assign(target, source)]. *)
Definition assign (target source : obj) : obj :=
  fold_left (fun t kv => set (fst kv) (snd kv) t) source target.

(** An array index written canonically ("0", "1", "12", never "01"). *)
Definition index_of_key (k : string) : option nat :=
  match NilZero.uint_of_string k with
  | Some u =>
      let n := Nat.of_uint u in
      if NilZero.string_of_uint (Nat.to_uint n) =? k then Some n else None
  | None => None
  end.

(** [v[k]] on any value, for the names that are no inherited member: own
    properties of objects, the elements and the length of arrays, the
    characters and the length of strings. *)
Definition prop (v : value) (k : string) : value :=
  match v with
  | VObj o => get o k
  | VArr xs =>
      if k =? "length" then VNum (Z.of_nat (List.length xs))
      else match index_of_key k with
           | Some i => nth i xs VUndefined
           | None => VUndefined
           end
  | VStr s =>
      if k =? "length" then VNum (Z.of_nat (String.length s))
      else match index_of_key k with
           | Some i => match String.get i s with
                       | Some c => VStr (String c "")
                       | None => VUndefined
                       end
           | None => VUndefined
           end
  | _ => VUndefined
  end.

(** [objectPath.get(v, path)] of the object-path package: the empty path
    is the value itself, any other path is split at its dots and followed
    property by property. *)
Definition objectPath_get (v : value) (path : string) : value :=
  if path =? "" then v
  else fold_left prop (split_dots path) v.

(** ** Errors, site configuration, request state *)

(** An entry [{code, data}] of the array that [_validateFields] returns. *)
Record field_error : Type := mkFieldError {
  code : string;
  data : list string
}.

(** The rejection values of the pipeline.  [ErrCode c] is the string [c]
    (['IS_SPAM'], ['INVALID_FORMAT'], ...), [ErrConfig c d] the object
    [{code: c, data: d}] of [_validateConfig] ([None] for a [data] that is
    [null] or not there), [ErrFields es] the array of [_validateFields],
    [ErrThrown v] a value thrown or passed as an error. *)
Inductive error : Type :=
| ErrCode (c : string)
| ErrConfig (c : string) (d : option (list string))
| ErrFields (es : list field_error)
| ErrThrown (v : value).

(** What [this.siteConfig.get(key)] answers for the keys the pipeline
    reads.  A [None] for [generatedFields] or [transforms] is a falsy
    answer.  The schema that builds it from the raw configuration
    ([siteConfig.js]) is a collaborator, [newSiteConfig] below. *)
Record SiteConfig : Type := mkSiteConfig {
  allowedFields : list string;
  requiredFields : list string;
  format : string;
  path : string;
  filename : string;
  commitMessage : string;
  generatedFields : option obj;
  transforms : option obj;
  moderation : bool;
  akismet_enabled : bool;
  akismet_type : string;
  akismet_author : string;
  akismet_authorEmail : string;
  akismet_authorUrl : string;
  akismet_content : string;
  notifications_enabled : bool;
  pullRequestBody : string
}.

(** The instance built by the constructor: [this.parameters],
    [this.fields], [this.options], [this.uid], and what the setters and
    [_validateConfig] store. *)
Record Staticman : Type := mkStaticman {
  parameters : obj;
  fields : obj;
  options : obj;
  uid : string;
  siteConfig : option SiteConfig;
  configPath : option (string * string);
  ip : value;
  userAgent : value
}.

Definition set_fields (st : Staticman) (f : obj) : Staticman :=
  mkStaticman (parameters st) f (options st) (uid st) (siteConfig st)
              (configPath st) (ip st) (userAgent st).

Definition set_siteConfig (st : Staticman) (c : SiteConfig) : Staticman :=
  mkStaticman (parameters st) (fields st) (options st) (uid st) (Some c)
              (configPath st) (ip st) (userAgent st).

(** The argument of [akismet.checkSpam]. *)
Record spam_request : Type := mkSpamRequest {
  user_ip : value;
  user_agent : value;
  comment_type : string;
  comment_author : value;
  comment_author_email : value;
  comment_author_url : value;
  comment_content : value
}.

(** The calls made on the collaborators, in the order they are made. *)
Inductive event : Type :=
| EReadFile (file : string)
| ECheckSpam (req : spam_request)
| ESubscriptionsSet (parent : value) (address : value)
| ESubscriptionsSend (parent : value) (fields : obj) (options : obj)
| EWriteFile (filePath data : string) (branch : value) (message : string)
| EWriteFileAndSendPR (filePath data branch message body : string).

(** A write on the repository: a file write, or the call that creates
    the branch, writes the file and opens the review request. *)
Definition is_write (e : event) : bool :=
  match e with
  | EWriteFile _ _ _ _ | EWriteFileAndSendPR _ _ _ _ _ => true
  | _ => false
  end.

(** The collaborators of the pipeline. *)
Record World : Type := mkWorld {
  now : Z;                                   (* new Date().getTime(): time stands still *)
  toISOString : Z -> string;                 (* Date.prototype.toISOString *)
  readFile : string -> error + value;        (* this.github.readFile *)
  newSiteConfig : value -> SiteConfig;       (* SiteConfig(config, this.rsa) *)
  url_hostname : string -> value;            (* require('url').parse(s).hostname *)
  checkSpam : spam_request -> value * value; (* the (err, isSpam) of the callback *)
  slugify : value -> string;
  md5 : value -> string;
  JSON_stringify : value -> string;
  yaml_safeDump : obj -> value + string;     (* inl: the exception thrown *)
  markdownTable : list (value * value) -> string;
  writeFile : string -> string -> value -> string -> error + value;
  writeFileAndSendPR : string -> string -> string -> string -> string -> error + value
}.

(** ** Placeholder resolution *)

Definition nl : string := String (ascii_of_nat 10) "".

(** The rest of a match of [/{(.*?)}/] once its opening brace is read:
    the shortest run of characters other than line terminators that is
    followed by a closing brace.  Returns the run and what follows the
    closing brace. *)
Fixpoint match_body (s : string) : option (string * string) :=
  match s with
  | "" => None
  | String c r =>
      if (c =? "}")%char then Some ("", r)
      else if is_line_terminator c then None
      else match match_body r with
           | Some (b, rest) => Some (String c b, rest)
           | None => None
           end
  end.

(** [subject.match(/{(.*?)}/g)]: the matches from left to right, each
    search starting where the previous match ended.  [skip] counts the
    characters of the current match still to be passed. *)
Fixpoint matches_from (skip : nat) (s : string) : list string :=
  match s with
  | "" => []
  | String c r =>
      match skip with
      | S k => matches_from k r
      | O =>
          if (c =? "{")%char then
            match match_body r with
            | Some (b, _) =>
                ("{" ++ b ++ "}") :: matches_from (S (String.length b)) r
            | None => matches_from 0 r
            end
          else matches_from 0 r
      end
  end.

(** [null] is the empty list. *)
Definition regex_matches (subject : string) : list string :=
  matches_from 0 subject.

(** GetSubstitution of ECMAScript for a pattern without capture groups:
    in the replacement text, [$$] is a dollar, [$&] the matched text,
    [$`] what precedes the match and [$'] what follows it. *)
Fixpoint getSubstitution (matched before after repl : string) : string :=
  match repl with
  | "" => ""
  | String c r =>
      if (c =? "$")%char then
        match r with
        | "" => String c ""
        | String d r' =>
            if (d =? "$")%char then
              String "$" (getSubstitution matched before after r')
            else if (d =? "&")%char then
              matched ++ getSubstitution matched before after r'
            else if (d =? "`")%char then
              before ++ getSubstitution matched before after r'
            else if (d =? "'")%char then
              after ++ getSubstitution matched before after r'
            else String c (getSubstitution matched before after r)
        end
      else String c (getSubstitution matched before after r)
  end.

(** [s.replace(new RegExp(escapedMatch, 'g'), repl)] where [escapedMatch]
    is [needle] with every character that is special in a regular
    expression escaped: the occurrences of [needle], from left to right
    and without overlap, each replaced by the substitution of [repl].
    [pre] is the part of the subject already read; a token is never
    empty. *)
Fixpoint replace_from (skip : nat) (needle repl pre s : string) : string :=
  match s with
  | "" => ""
  | String c r =>
      match skip with
      | S k => replace_from k needle repl (pre ++ String c "") r
      | O =>
          if startsWith needle s then
            getSubstitution needle pre (drop (String.length needle) s) repl
            ++ replace_from (String.length needle - 1) needle repl
                 (pre ++ String c "") r
          else String c (replace_from 0 needle repl (pre ++ String c "") r)
      end
  end.

Definition replace_all (needle repl s : string) : string :=
  replace_from 0 needle repl "" s.

(** [match.slice(1, -1)]. *)
Definition slice_1_m1 (s : string) : string :=
  match s with
  | "" => ""
  | String _ r => remove_last r
  end.

Section Pipeline.

Variable w : World.

(** The [switch (property)] of [_resolvePlaceholders]. *)
Definition newText (st : Staticman) (baseObject : value) (property : string)
  : value :=
  if property =? "@timestamp" then VNum (now w)
  else if property =? "@id" then VStr (uid st)
  else
    let v := objectPath_get baseObject property in
    if truthy v then v else VStr "".

Definition resolve_step (st : Staticman) (baseObject : value)
  (subject : string) (m : string) : string :=
  replace_all m (js_toString (newText st baseObject (slice_1_m1 m))) subject.

(** [_resolvePlaceholders(subject, baseObject)]. *)
Definition resolvePlaceholders (st : Staticman) (subject : string)
  (baseObject : value) : string :=
  match regex_matches subject with
  | [] => subject
  | ms => fold_left (resolve_step st baseObject) ms subject
  end.

(** [{fields: data, options: this.options}]. *)
Definition context (st : Staticman) (data : obj) : value :=
  VObj [("fields", VObj data); ("options", VObj (options st))].

(** [_getExtensionForFormat(format)]; falls out of the [switch] with
    [undefined]. *)
Definition getExtensionForFormat (fmt : string) : value :=
  let f := toLowerCase fmt in
  if f =? "json" then VStr "json"
  else if (f =? "yaml") || (f =? "yml") then VStr "yml"
  else if f =? "frontmatter" then VStr "md"
  else VUndefined.

(** [_getNewFilePath(data)]. *)
Definition getNewFilePath (st : Staticman) (cfg : SiteConfig) (data : obj)
  : string :=
  let configFilename := filename cfg in
  let fname :=
    if negb (configFilename =? "")
    then resolvePlaceholders st configFilename (context st data)
    else uid st in
  let p := resolvePlaceholders st (path cfg) (context st data) in
  let p := match last_char p with
           | Some c => if (c =? "/")%char then remove_last p else p
           | None => p
           end in
  let extension := getExtensionForFormat (format cfg) in
  p ++ "/" ++ fname ++ "." ++ js_toString extension.

(** ** Field processing *)

(** [_applyInternalFields(data)]. *)
Definition applyInternalFields (st : Staticman) (data : obj) : obj :=
  let internalFields := [("_id", VStr (uid st))] in
  let internalFields :=
    if truthy (get (options st) "parent")
    then set "_parent" (get (options st) "parent") internalFields
    else internalFields in
  assign internalFields data.

(** [_createDate(options)], [now w] being what its [new Date()] reads. *)
Definition createDate (opts : value) : value :=
  let f := prop opts "format" in
  if strict_eq_str f "timestamp" then VNum (now w)
  else if strict_eq_str f "timestamp-seconds" then VNum (now w / 1000)
  else VStr (toISOString w (now w)).

(** The body of the loop of [_applyGeneratedFields].  A rule that is
    [null] passes the [typeof] test and fails on [generatedField.options]. *)
Definition generate_step (st : Staticman) (gen : obj) (acc : error + obj)
  (field : string) : error + obj :=
  match acc with
  | inl e => inl e
  | inr data =>
      let generatedField := get gen field in
      match generatedField with
      | VNull => inl (ErrThrown (VStr "TypeError"))
      | VObj _ =>
          let opts := if truthy (prop generatedField "options")
                      then prop generatedField "options" else VObj [] in
          let ty := prop generatedField "type" in
          if strict_eq_str ty "date" then
            inr (set field (createDate opts) data)
          else if strict_eq_str ty "slugify" then
            match get (options st) "field" with
            | VStr f =>
                inr (set field
                       (VStr (toLowerCase (slugify w (member data f)))) data)
            | _ => inr data
            end
          else inr data
      | _ => inr (set field generatedField data)
      end
  end.

(** [_applyGeneratedFields(data)]. *)
Definition applyGeneratedFields (st : Staticman) (cfg : SiteConfig)
  (data : obj) : error + obj :=
  match generatedFields cfg with
  | None => inr data
  | Some gen => fold_left (generate_step st gen) (keys gen) (inr data)
  end.

(** The body of the loop of [_applyTransforms]: [field] is a key of
    [transforms], and [fields[field]] is read on the fields, where it may
    be an inherited member. *)
Definition transform_step (tr : obj) (fields : obj) (field : string) : obj :=
  if negb (truthy (member fields field)) then fields
  else if strict_eq_str (get tr field) "md5"
       then set field (VStr (md5 w (member fields field))) fields
       else fields.

(** [_applyTransforms(fields)]; the queue of promises is always empty. *)
Definition applyTransforms (cfg : SiteConfig) (fields : obj) : obj :=
  match transforms cfg with
  | None => fields
  | Some tr => fold_left (transform_step tr) (keys tr) fields
  end.

(** [_checkForSpam(fields)]. *)
Definition spamRequest (st : Staticman) (cfg : SiteConfig) (fields : obj)
  : spam_request :=
  mkSpamRequest (ip st) (userAgent st) (akismet_type cfg)
    (member fields (akismet_author cfg))
    (member fields (akismet_authorEmail cfg))
    (member fields (akismet_authorUrl cfg))
    (member fields (akismet_content cfg)).

Definition checkForSpam (st : Staticman) (cfg : SiteConfig) (fields : obj)
  : list event * (error + obj) :=
  if negb (akismet_enabled cfg) then ([], inr fields)
  else
    let req := spamRequest st cfg fields in
    let '(err, isSpam) := checkSpam w req in
    ([ECheckSpam req],
     if truthy err then inl (ErrThrown err)
     else if truthy isSpam then inl (ErrCode "IS_SPAM")
     else inr fields).

(** [Array.prototype.indexOf] on an array of strings. *)
Fixpoint indexOf (xs : list string) (x : string) : Z :=
  match xs with
  | [] => (-1)%Z
  | y :: r =>
      if y =? x then 0%Z
      else let i := indexOf r x in
           if (i =? -1)%Z then (-1)%Z else (i + 1)%Z
  end.

(** The body of the first loop of [_validateFields]: the test reads the
    value before it is trimmed.  [field] is a key of the fields. *)
Definition validate_step (allowed : list string) (acc : obj * list string)
  (field : string) : obj * list string :=
  let '(fields, invalidFields) := acc in
  let invalidFields :=
    if (indexOf allowed field =? -1)%Z
       && negb (is_empty_string (get fields field))
    then (invalidFields ++ [field])%list else invalidFields in
  let fields :=
    match get fields field with
    | VStr s => set field (VStr (trim s)) fields
    | _ => fields
    end in
  (fields, invalidFields).

Definition validate_loop (cfg : SiteConfig) (fields : obj)
  : obj * list string :=
  fold_left (validate_step (allowedFields cfg)) (keys fields) (fields, []).

(** The fields as [_validateFields] leaves them. *)
Definition trimmedFields (cfg : SiteConfig) (fields : obj) : obj :=
  fst (validate_loop cfg fields).

Definition invalidFields (cfg : SiteConfig) (fields : obj) : list string :=
  snd (validate_loop cfg fields).

(** The second loop reads the fields after the first one; a required
    name need not be a key of theirs. *)
Definition missingRequiredFields (cfg : SiteConfig) (fields : obj)
  : list string :=
  filter (fun field =>
            is_undefined (member (trimmedFields cfg fields) field)
            || is_empty_string (member (trimmedFields cfg fields) field))
         (requiredFields cfg).

Definition is_nil {A : Type} (l : list A) : bool :=
  match l with [] => true | _ => false end.

(** [_validateFields(fields)]: the errors ([None] for [null]) and the
    fields, which it updates in place. *)
Definition validateFields (cfg : SiteConfig) (fields : obj)
  : option (list field_error) * obj :=
  let missing := missingRequiredFields cfg fields in
  let invalid := invalidFields cfg fields in
  let errors :=
    ((if negb (is_nil missing)
      then [mkFieldError "MISSING_REQUIRED_FIELDS" missing] else [])
     ++ (if negb (is_nil invalid)
         then [mkFieldError "INVALID_FIELDS" invalid] else []))%list in
  (if negb (is_nil errors) then Some errors else None,
   trimmedFields cfg fields).

(** ** Serialization *)

(** The [contentField] of the [frontmatter] case: a falsy [transforms],
    or the first key declared as [frontmatterContent], if any. *)
Definition contentField (cfg : SiteConfig) : option string :=
  match transforms cfg with
  | None => None
  | Some tr =>
      find (fun field => strict_eq_str (get tr field) "frontmatterContent")
           (keys tr)
  end.

(** [_createFile(fields)]: the promise's outcome and the fields, from
    which the [frontmatter] case deletes the content field. *)
Definition createFile (cfg : SiteConfig) (fields : obj)
  : (error + string) * obj :=
  let f := toLowerCase (format cfg) in
  if f =? "json" then (inr (JSON_stringify w (VObj fields)), fields)
  else if (f =? "yaml") || (f =? "yml") then
    (match yaml_safeDump w fields with
     | inr output => inr output
     | inl err => inl (ErrThrown err)
     end, fields)
  else if f =? "frontmatter" then
    match contentField cfg with
    | None => (inl (ErrCode "NO_FRONTMATTER_CONTENT_TRANSFORM"), fields)
    | Some cf =>
        if cf =? "" then
          (inl (ErrCode "NO_FRONTMATTER_CONTENT_TRANSFORM"), fields)
        else
          let content := member fields cf in
          let fields := delete cf fields in
          (match yaml_safeDump w fields with
           | inr y =>
               inr ("---" ++ nl ++ y ++ "---" ++ nl
                    ++ js_toString content ++ nl)
           | inl err => inl (ErrThrown err)
           end, fields)
    end
  else (inl (ErrCode "INVALID_FORMAT"), fields).

Definition configPath_value (st : Staticman) : value :=
  match configPath st with
  | Some (file, p) => VObj [("file", VStr file); ("path", VStr p)]
  | None => VUndefined
  end.

(** [_generatePRBody(fields)]. *)
Definition generatePRBody (st : Staticman) (cfg : SiteConfig) (fields : obj)
  : string :=
  let table := (VStr "Field", VStr "Content")
               :: map (fun kv => (VStr (fst kv), snd kv)) fields in
  let message := pullRequestBody cfg ++ markdownTable w table in
  if notifications_enabled cfg then
    let notificationsPayload :=
      VObj [("configPath", configPath_value st);
            ("fields", VObj fields);
            ("options", VObj (options st));
            ("parameters", VObj (parameters st))] in
    message ++ nl ++ nl ++ "<!--staticman_notification:"
    ++ JSON_stringify w notificationsPayload ++ "-->"
  else message.

(** ** Configuration *)

(** [a === b] where one side at least is a primitive; two objects read
    from different places are never the same object. *)
Definition strict_eq (a b : value) : bool :=
  match a, b with
  | VUndefined, VUndefined => true
  | VNull, VNull => true
  | VBool x, VBool y => Bool.eqb x y
  | VNum x, VNum y => (x =? y)%Z
  | VStr x, VStr y => x =? y
  | _, _ => false
  end.

Inductive validation : Type :=
| Throws                         (* an exception leaves the function *)
| Invalid (e : error)            (* the errors object it returns *)
| Valid (st : Staticman).        (* [null], [this.siteConfig] being set *)

Definition configRequiredFields : list string :=
  ["allowedFields"; "branch"; "format"; "path"].

(** The loop of [_validateConfig] over the required fields. *)
Definition missingConfigFields (config : value) : list string :=
  filter (fun requiredField =>
            is_undefined (objectPath_get config requiredField))
         configRequiredFields.

(** [_validateConfig(config)].  [url.parse] throws on an origin that is
    not a string, and [allowedOrigins.some] is not there unless
    [allowedOrigins] is an array. *)
Definition validateConfig (st : Staticman) (config : value) : validation :=
  if negb (truthy config) then Invalid (ErrConfig "MISSING_CONFIG_BLOCK" None)
  else
    let missingFields := missingConfigFields config in
    if negb (is_nil missingFields) then
      Invalid (ErrConfig "MISSING_CONFIG_FIELDS" (Some missingFields))
    else
      let allowedOrigins := prop config "allowedOrigins" in
      let accept := Valid (set_siteConfig st (newSiteConfig w config)) in
      if truthy allowedOrigins && truthy (prop allowedOrigins "length") then
        if truthy (get (options st) "origin") then
          match get (options st) "origin", allowedOrigins with
          | VStr origin, VArr origins =>
              let validOrigin :=
                existsb (fun o => strict_eq o (url_hostname w origin))
                        origins in
              if negb validOrigin then Invalid (ErrConfig "INVALID_ORIGIN" None)
              else accept
          | _, _ => Throws
          end
        else Invalid (ErrConfig "MISSING_ORIGIN" None)
      else accept.

(** [getSiteConfig(force)]: the calls it makes, and the outcome with the
    instance as [_validateConfig] leaves it. *)
Definition getSiteConfig (st : Staticman) (force : bool)
  : list event * (error + Staticman * SiteConfig) :=
  match siteConfig st, force with
  | Some c, false => ([], inr (st, c))
  | _, _ =>
      match configPath st with
      | None => ([], inl (ErrCode "NO_CONFIG_PATH"))
      | Some (file, p) =>
          ([EReadFile file],
           match readFile w file with
           | inl e => inl e
           | inr data =>
               let config := objectPath_get data p in
               match validateConfig st config with
               | Throws => inl (ErrCode "Config validation failed") (* and the stack *)
               | Invalid validationErrors => inl validationErrors
               | Valid st' =>
                   if negb (strict_eq (prop config "branch")
                                      (get (parameters st) "branch"))
                   then inl (ErrCode "BRANCH_MISMATCH")
                   else inr (st', newSiteConfig w config)
               end
           end)
      end
  end.

(** ** The entry pipeline *)

Record entry_result : Type := mkResult {
  result_fields : obj;
  redirect : value
}.

(** The first four steps of [processEntry]: configuration, spam check,
    validation, generated fields and transforms, internal fields.  The
    object handed from step to step up to [_applyTransforms] is
    [this.fields] itself, so its updates are updates of the instance;
    [_applyInternalFields] builds another object.  Returns the calls
    made, and the instance, the site configuration and the extended
    fields that [_createFile] receives. *)
Definition prepareEntry (st : Staticman)
  : list event * (error + Staticman * SiteConfig * obj) :=
  let '(ev1, r1) := getSiteConfig st false in
  match r1 with
  | inl e => (ev1, inl e)
  | inr (st, cfg) =>
      let '(ev2, r2) := checkForSpam st cfg (fields st) in
      ((ev1 ++ ev2)%list,
       match r2 with
       | inl e => inl e
       | inr fields =>
           match validateFields cfg fields with
           | (Some fieldErrors, _) => inl (ErrFields fieldErrors)
           | (None, fields) =>
               match applyGeneratedFields st cfg fields with
               | inl e => inl e
               | inr fields =>
                   let transformedFields := applyTransforms cfg fields in
                   let st := set_fields st transformedFields in
                   inr (st, cfg, applyInternalFields st transformedFields)
               end
           end
       end)
  end.

(** The last but one step: paths, subscription, and the write. *)
Definition dispatch (st : Staticman) (cfg : SiteConfig) (data : string)
  : list event * (error + value) :=
  let fields := fields st in
  let options := options st in
  let filePath := getNewFilePath st cfg fields in
  let subscriptions := notifications_enabled cfg in
  let commitMessage :=
    resolvePlaceholders st (commitMessage cfg) (context st fields) in
  let parent := get options "parent" in
  let subscribe := get options "subscribe" in
  let address := member fields (js_toString subscribe) in
  let ev_set :=
    if subscriptions && truthy parent && truthy subscribe && truthy address
    then [ESubscriptionsSet parent address] else [] in
  if moderation cfg then
    let newBranch := "staticman_" ++ uid st in
    let body := generatePRBody st cfg fields in
    ((ev_set
      ++ [EWriteFileAndSendPR filePath data newBranch commitMessage body])%list,
     writeFileAndSendPR w filePath data newBranch commitMessage body)
  else
    let ev_send :=
      if subscriptions && truthy parent
      then [ESubscriptionsSend parent fields options] else [] in
    let branch := get (parameters st) "branch" in
    ((ev_set ++ ev_send
      ++ [EWriteFile filePath data branch commitMessage])%list,
     writeFile w filePath data branch commitMessage).

(** [processEntry()]: the calls made on the collaborators and the
    outcome of the promise. *)
Definition processEntry (st : Staticman) : list event * (error + entry_result) :=
  let '(ev1, r1) := prepareEntry st in
  match r1 with
  | inl e => (ev1, inl e)
  | inr (st, cfg, extendedFields) =>
      match createFile cfg extendedFields with
      | (inl e, _) => (ev1, inl e)
      | (inr data, _) =>
          let '(ev2, r2) := dispatch st cfg data in
          ((ev1 ++ ev2)%list,
           match r2 with
           | inl e => inl e
           | inr _ =>
               inr (mkResult (fields st)
                      (if truthy (get (options st) "redirect")
                       then get (options st) "redirect"
                       else VBool false))
           end)
      end
  end.

End Pipeline.

(** The text that takes the place of the placeholder named [b]. *)
Definition placeholder_text (w : World) (st : Staticman) (ctx : value)
  (b : string) : string :=
  js_toString (newText w st ctx b).

(** ** Templates

    A template seen as its literal parts and its placeholders. *)

Inductive segment : Type :=
| Lit (text : string)
| Tok (name : string).

Definition token (name : string) : string := "{" ++ name ++ "}".

Fixpoint render (segs : list segment) : string :=
  match segs with
  | [] => ""
  | Lit s :: r => s ++ render r
  | Tok b :: r => token b ++ render r
  end.

Definition names (segs : list segment) : list string :=
  flat_map (fun sg => match sg with Lit _ => [] | Tok b => [b] end) segs.

Definition tokens (segs : list segment) : list string :=
  map token (names segs).

(** One pass of the resolver seen on the segments: the placeholders named
    [b] become the text [v]. *)
Definition subst_segment (b v : string) (sg : segment) : segment :=
  match sg with
  | Tok b' => if b' =? b then Lit v else sg
  | Lit _ => sg
  end.

Definition pass (text : string -> string) (segs : list segment) (b : string)
  : list segment :=
  map (subst_segment b (text b)) segs.

(** The template with each placeholder replaced by its text. *)
Fixpoint resolved (text : string -> string) (segs : list segment) : string :=
  match segs with
  | [] => ""
  | Lit s :: r => s ++ resolved text r
  | Tok b :: r => text b ++ resolved text r
  end.

(** [c] does not occur in [s]. *)
Fixpoint no_char (c : ascii) (s : string) : bool :=
  match s with
  | "" => true
  | String a r => negb (a =? c)%char && no_char c r
  end.

Fixpoint no_line_terminator (s : string) : bool :=
  match s with
  | "" => true
  | String a r => negb (is_line_terminator a) && no_line_terminator r
  end.

(** A name that a placeholder can have: no closing brace and no line
    terminator. *)
Definition is_name (b : string) : bool :=
  no_char "}" b && no_line_terminator b.

(** A name without braces at all. *)
Definition plain_name (b : string) : bool := is_name b && no_char "{" b.

(** A text without an opening brace and without a dollar. *)
Definition plain_text (v : string) : bool := no_char "{" v && no_char "$" v.

Definition segment_ok (sg : segment) : bool :=
  match sg with
  | Lit s => no_char "{" s
  | Tok b => plain_name b
  end.

Definition plain_segment (text : string -> string) (sg : segment) : bool :=
  match sg with
  | Lit s => no_char "{" s
  | Tok b => plain_name b && plain_text (text b)
  end.

(** ** The constructor and the merge flow *)

(** What the constructor reads of the request: [req.params], and the
    [fields] and [options] of [req.query] and [req.body], each of which
    may be missing. *)
Record http_request : Type := mkRequest {
  req_params : obj;
  query_fields : option obj;
  body_fields : option obj;
  query_options : option obj;
  body_options : option obj
}.

(** One more source of [Object.assign]; a missing source is skipped. *)
Definition assign_source (target : obj) (source : option obj) : obj :=
  match source with
  | Some s => assign target s
  | None => target
  end.

(** [new Staticman(req)], [uuid] being the answer of [uuid.v1()]. *)
Definition construct (req : http_request) (uuid : string) : Staticman :=
  mkStaticman (req_params req)
    (assign_source (assign_source [] (query_fields req)) (body_fields req))
    (assign_source (assign_source [] (query_options req)) (body_options req))
    uuid None None VUndefined VUndefined.



(** ** The first pipeline ([lib/Staticman.js])

    Its [_validateConfig] completes the configuration with defaults. *)

Module Legacy.

Definition defaultValues : obj :=
  [("commitTitle", VStr "Add Staticman entry");
   ("commitMessage", VStr "YAY! Here's another entry.");
   ("moderation", VBool true);
   ("transforms", VObj [])].

(** The body of the loop over the defaults; [objectPath.set] with a key
    without dot is an assignment. *)
Definition default_step (config : obj) (defaultValueKey : string) : obj :=
  if is_undefined (objectPath_get (VObj config) defaultValueKey)
  then set defaultValueKey (get defaultValues defaultValueKey) config
  else config.

(** [_validateConfig(config)]: the errors, or the configuration it
    stores.  Only an object has the required fields. *)
Definition validateConfig (config : value) : error + value :=
  if negb (truthy config) then inl (ErrConfig "MISSING_CONFIG_BLOCK" None)
  else
    let missingFields := missingConfigFields config in
    if negb (is_nil missingFields) then
      inl (ErrConfig "MISSING_CONFIG_FIELDS" (Some missingFields))
    else
      match config with
      | VObj o => inr (VObj (fold_left default_step (keys defaultValues) o))
      | _ => inr config
      end.

End Legacy.

(** ** A sample world and sample requests

    Stand-ins for the collaborators, simple enough to run: they are used
    to evaluate the pipeline on concrete requests. *)

Module Sample.

(** The host name of a URL written [scheme://host:port/path?query#hash],
    the port and what follows the host being optional. *)
Fixpoint upto_slash (s : string) : string :=
  match s with
  | "" => ""
  | String c r =>
      if ((c =? "/") || (c =? ":") || (c =? "?") || (c =? "#"))%char then ""
      else String c (upto_slash r)
  end.

Fixpoint after_slashes (s : string) : option string :=
  match s with
  | "" => None
  | String c r =>
      if startsWith "://" s then Some (drop 3 s) else after_slashes r
  end.

Definition hostname (s : string) : value :=
  match after_slashes s with
  | Some r => VStr (toLowerCase (upto_slash r))
  | None => VNull
  end.

(** One line per field, as js-yaml prints a flat mapping of plain
    scalars. *)
Definition dump (o : obj) : value + string :=
  inr (fold_right
         (fun kv acc => fst kv ++ ": " ++ js_toString (snd kv) ++ nl ++ acc)
         "" o).

Definition site : SiteConfig :=
  mkSiteConfig ["name"; "message"] ["name"] "json"
    "posts/{options.parent}" "{@id}" "New comment by {fields.name}"
    (Some []) (Some []) false false "comment" "name" "email" "url"
    "message" false "Thank you".

Definition with_format (c : SiteConfig) (fmt : string) : SiteConfig :=
  mkSiteConfig (allowedFields c) (requiredFields c) fmt (path c)
    (filename c) (commitMessage c) (generatedFields c) (transforms c)
    (moderation c) (akismet_enabled c) (akismet_type c) (akismet_author c)
    (akismet_authorEmail c) (akismet_authorUrl c) (akismet_content c)
    (notifications_enabled c) (pullRequestBody c).

Definition with_akismet (c : SiteConfig) : SiteConfig :=
  mkSiteConfig (allowedFields c) (requiredFields c) (format c) (path c)
    (filename c) (commitMessage c) (generatedFields c) (transforms c)
    (moderation c) true (akismet_type c) (akismet_author c)
    (akismet_authorEmail c) (akismet_authorUrl c) (akismet_content c)
    (notifications_enabled c) (pullRequestBody c).

Definition world : World :=
  mkWorld 1500000000000 (fun _ => "2017-07-14T02:40:00.000Z")
    (fun _ => inr (VObj []))
    (fun _ => site)
    hostname
    (fun _ => (VNull, VBool false))
    js_toString
    (fun v => "md5:" ++ js_toString v)
    js_toString
    dump
    (fun _ => "")
    (fun _ _ _ _ => inr VUndefined)
    (fun _ _ _ _ _ => inr VUndefined).

(** A classifier that answers "spam", and one that fails. *)
Definition with_checkSpam (x : World) (f : spam_request -> value * value)
  : World :=
  mkWorld (now x) (toISOString x) (readFile x) (newSiteConfig x)
    (url_hostname x) f (slugify x) (md5 x) (JSON_stringify x)
    (yaml_safeDump x) (markdownTable x) (writeFile x) (writeFileAndSendPR x).

(** A request on a site whose configuration is loaded. *)
Definition request (c : SiteConfig) (fields options : obj) : Staticman :=
  mkStaticman [("username", VStr "u"); ("repository", VStr "r");
               ("branch", VStr "master")]
    fields options "abc" (Some c) (Some ("_config.yml", "comments"))
    (VStr "127.0.0.1") (VStr "agent").

(** The raw configuration block of a site. *)
Definition rawConfig : value :=
  VObj [("allowedFields", VArr [VStr "name"; VStr "message"]);
        ("branch", VStr "master");
        ("format", VStr "json");
        ("path", VStr "posts/{options.parent}");
        ("allowedOrigins", VArr [VStr "example.com"])].

(** The same block without its [format] and [path]. *)
Definition partConfig : value :=
  VObj [("allowedFields", VArr [VStr "name"; VStr "message"]);
        ("branch", VStr "master")].

(** The sample site with [posts/{options.parent}/{@id}] as its path
    template and no file name template. *)
Definition path_only_site : SiteConfig :=
  mkSiteConfig ["name"; "message"] ["name"] "json"
    "posts/{options.parent}/{@id}" "" "New comment by {fields.name}"
    (Some []) (Some []) false false "comment" "name" "email" "url"
    "message" false "Thank you".

(** A site that writes front matter, its content taken from [body]. *)
Definition frontmatter_site : SiteConfig :=
  mkSiteConfig ["title"; "body"] ["body"] "frontmatter"
    "posts/{options.parent}" "{@id}" "New post"
    (Some []) (Some [("body", VStr "frontmatterContent")])
    false false "comment" "name" "email" "url" "body" false "Thank you".

Definition hello_fields : obj := [("body", VStr "Hello"); ("title", VStr "T")].

(** A site that checks for spam, and classifiers that answer "spam" or
    fail. *)
Definition akismet_site : SiteConfig := with_akismet site.

Definition spam_world : World :=
  with_checkSpam world (fun _ => (VNull, VBool true)).

Definition broken_world : World :=
  with_checkSpam world (fun _ => (VStr "ETIMEDOUT", VUndefined)).

(** Submissions that carry a reserved key with an empty value. *)
Definition fields_with_id : obj := [("name", VStr "Bob"); ("_id", VStr "")].

Definition fields_with_parent : obj :=
  [("name", VStr "Bob"); ("_parent", VStr "")].

(** A submission with a field named by an array index. *)
Definition numbered_fields : obj := [("1", VStr "one"); ("name", VStr "Bob")].

(** A context in which the value of [fields.a] is the text of another
    placeholder. *)
Definition nested_context : value :=
  VObj [("fields", VObj [("a", VStr "{fields.b}"); ("b", VStr "X")])].

(** A template with a placeholder that comes back. *)
Definition sample_template : list segment :=
  [Lit "posts/"; Tok "options.parent"; Lit "/"; Tok "@id"; Lit "-";
   Tok "@id"].

(** A site that hashes the e-mail address and adds two generated
    fields. *)
Definition hashing_site : SiteConfig :=
  mkSiteConfig ["name"; "email"] ["name"] "json"
    "posts" "" "New comment"
    (Some [("kind", VStr "comment");
           ("date", VObj [("type", VStr "date")])])
    (Some [("email", VStr "md5")])
    false false "comment" "name" "email" "url" "message" false "Thank you".

Definition mail_fields : obj :=
  [("name", VStr "Bob"); ("email", VStr "bob@example.com")].


(** A site that notifies, and a request that subscribes. *)
Definition notify_site : SiteConfig :=
  mkSiteConfig ["name"; "email"] ["name"] "json"
    "posts" "" "New comment" (Some []) (Some [])
    false false "comment" "name" "email" "url" "message" true "Thank you".

Definition subscribe_options : obj :=
  [("parent", VStr "p1"); ("subscribe", VStr "email")].

(** A request whose configuration is still to be read, and a world that
    reads the raw configuration of the sample. *)
Definition fresh_request (fields options : obj) : Staticman :=
  mkStaticman [("username", VStr "u"); ("repository", VStr "r");
               ("branch", VStr "master")]
    fields options "abc" None (Some ("_config.yml", "comments"))
    (VStr "127.0.0.1") (VStr "agent").

Definition reading_world : World :=
  mkWorld (now world) (toISOString world)
    (fun _ => inr (VObj [("comments", rawConfig)]))
    (newSiteConfig world) (url_hostname world) (checkSpam world)
    (slugify world) (md5 world) (JSON_stringify world)
    (yaml_safeDump world) (markdownTable world) (writeFile world)
    (writeFileAndSendPR world).

(** A context whose [fields.sign] is the sequence that stands for the
    matched text in a replacement. *)
Definition dollar_context : value :=
  VObj [("fields", VObj [("sign", VStr "$&")])].

(** A request with fields in its query and in its body. *)
Definition sample_req : http_request :=
  mkRequest [("branch", VStr "master")]
    (Some [("name", VStr "query"); ("url", VStr "u")])
    (Some [("name", VStr "body")]) None None.

(** A raw configuration that sets its own moderation. *)
Definition legacy_config : value :=
  VObj [("allowedFields", VArr [VStr "name"]); ("branch", VStr "master");
        ("format", VStr "json"); ("path", VStr "posts");
        ("moderation", VBool false)].


(** A submission that the sample site accepts. *)
Definition good_fields : obj := [("name", VStr " Bob "); ("y", VStr "")].

(** A submission with blank values: a required field, a field that is
    not allowed, and an empty one. *)
Definition blank_fields : obj :=
  [("name", VStr "  "); ("x", VStr "  "); ("y", VStr "")].

End Sample.

(** ** Well-formed objects *)

(** The keys of an object are pairwise different. *)
Fixpoint distinct (l : list string) : bool :=
  match l with
  | [] => true
  | x :: r => negb (existsb (String.eqb x) r) && distinct r
  end.

Definition well_formed (o : obj) : bool := distinct (keys o).

Definition is_index (k : string) : bool :=
  match array_index k with Some _ => true | None => false end.

(** Keys in the order of [Object.keys]: the array indices first, each
    above the one before ([lo] is the last one passed), then keys that
    are no array index. *)
Fixpoint ordered_above (lo : option N) (ks : list string) : bool :=
  match ks with
  | [] => true
  | k :: r =>
      match array_index k with
      | Some i =>
          match lo with Some j => (j <? i)%N | None => true end
          && ordered_above (Some i) r
      | None => forallb (fun k' => negb (is_index k')) r
      end
  end.

Definition key_order (o : obj) : bool := ordered_above None (keys o).

Definition trim_value (v : value) : value :=
  match v with
  | VStr s => VStr (trim s)
  | _ => v
  end.

(** The object with its string values trimmed, at the keys of [ks]. *)
Definition trim_at (ks : list string) (o : obj) : obj :=
  map (fun kv => if existsb (String.eqb (fst kv)) ks
                 then (fst kv, trim_value (snd kv)) else kv) o.

Definition trim_all (o : obj) : obj :=
  map (fun kv => (fst kv, trim_value (snd kv))) o.


(** The test of the first loop, on the fields as submitted. *)
Definition invalid_test (allowed : list string) (fs : obj) (f : string) : bool :=
  negb (existsb (String.eqb f) allowed) && negb (is_empty_string (get fs f)).

(** The extension of a format once in lower case. *)
Definition extension_of (lower ext : string) : Prop :=
  (lower = "json" /\ ext = "json")
  \/ ((lower = "yaml" \/ lower = "yml") /\ ext = "yml")
  \/ (lower = "frontmatter" /\ ext = "md").

(** A generated-field rule that is a literal value: neither an object nor
    [null]. *)
Definition is_literal (v : value) : bool :=
  match v with
  | VObj _ | VNull => false
  | _ => true
  end.

(** A path that ends with one of the three extensions. *)
Definition known_extension (p : string) : Prop :=
  exists q ext, p = q ++ "." ++ ext /\ In ext ["json"; "yml"; "md"].

(** * Properties *)

Section ObjectFacts.

Lemma existsb_eqb_In (x : string) (l : list string) :
  existsb (String.eqb x) l = true <-> In x l.
Proof.
  rewrite existsb_exists. split.
  - intros [y [Hy E]]. apply String.eqb_eq in E. now subst.
  - intros H. exists x. split; [assumption | apply String.eqb_refl].
Qed.

Lemma existsb_eqb_notIn (x : string) (l : list string) :
  existsb (String.eqb x) l = false <-> ~ In x l.
Proof.
  rewrite <- existsb_eqb_In. destruct (existsb _ l); intuition congruence.
Qed.

Lemma distinct_NoDup (l : list string) : distinct l = true <-> NoDup l.
Proof.
  induction l as [|x r IH]; simpl.
  - split; [constructor | reflexivity].
  - rewrite andb_true_iff, negb_true_iff, existsb_eqb_notIn, IH.
    split.
    + intros [H1 H2]. now constructor.
    + intros H. inversion H; subst. now split.
Qed.

Lemma indexOf_ge (xs : list string) (x : string) : (-1 <= indexOf xs x)%Z.
Proof.
  induction xs as [|y r IH]; simpl; [lia|].
  destruct (y =? x); [lia|].
  destruct (indexOf r x =? -1)%Z; lia.
Qed.

Lemma indexOf_absent (xs : list string) (x : string) :
  (indexOf xs x =? -1)%Z = negb (existsb (String.eqb x) xs).
Proof.
  induction xs as [|y r IH]; simpl; [reflexivity|].
  rewrite (String.eqb_sym x y).
  destruct (y =? x); simpl; [reflexivity|].
  rewrite <- IH.
  destruct (indexOf r x =? -1)%Z eqn:E; [reflexivity|].
  apply Z.eqb_neq in E. pose proof (indexOf_ge r x).
  apply Z.eqb_neq. lia.
Qed.

Lemma lookup_None_keys (k : string) (o : obj) :
  lookup k o = None <-> ~ In k (keys o).
Proof.
  induction o as [|[k' v] r IH]; simpl; [tauto|].
  destruct (k' =? k) eqn:E.
  - apply String.eqb_eq in E. split; [discriminate | tauto].
  - apply String.eqb_neq in E. rewrite IH. tauto.
Qed.

Lemma get_absent (k : string) (o : obj) :
  ~ In k (keys o) -> get o k = VUndefined.
Proof.
  intros H. unfold get. apply lookup_None_keys in H. now rewrite H.
Qed.

Lemma keys_trim_at (ks : list string) (o : obj) : keys (trim_at ks o) = keys o.
Proof.
  unfold keys, trim_at. rewrite map_map. apply map_ext.
  intros [k v]; simpl. now destruct (existsb _ ks).
Qed.

Lemma lookup_trim_at (ks : list string) (o : obj) (k : string) :
  lookup k (trim_at ks o) =
  match lookup k o with
  | Some v => Some (if existsb (String.eqb k) ks then trim_value v else v)
  | None => None
  end.
Proof.
  induction o as [|[k' v] r IH]; simpl; [reflexivity|].
  destruct (existsb (String.eqb k') ks) eqn:Ek; simpl;
    destruct (k' =? k) eqn:E; try assumption;
    apply String.eqb_eq in E; subst; now rewrite Ek.
Qed.

Lemma get_trim_at (ks : list string) (o : obj) (k : string) :
  get (trim_at ks o) k =
  if existsb (String.eqb k) ks then trim_value (get o k) else get o k.
Proof.
  unfold get. rewrite lookup_trim_at.
  destruct (lookup k o); destruct (existsb _ ks); reflexivity.
Qed.

Lemma trim_at_nil (o : obj) : trim_at [] o = o.
Proof.
  unfold trim_at. simpl. erewrite map_ext; [apply map_id|].
  now intros [k v].
Qed.

Lemma trim_at_keys (o : obj) : trim_at (keys o) o = trim_all o.
Proof.
  unfold trim_at, trim_all. apply map_ext_in. intros [k v] H. simpl.
  assert (In k (keys o)) as Hk by (apply (in_map fst) in H; exact H).
  apply existsb_eqb_In in Hk. now rewrite Hk.
Qed.

(** Writing the trimmed value at a key of a well-formed object. *)
Lemma update_trim_one (k : string) (s : string) (o : obj) :
  NoDup (keys o) -> lookup k o = Some (VStr s) ->
  update k (VStr (trim s)) o = trim_at [k] o.
Proof.
  induction o as [|[k' v] r IH]; simpl; [discriminate|].
  intros ND H. inversion ND as [|? ? Hn ND']; subst.
  rewrite orb_false_r.
  destruct (k' =? k) eqn:E.
  - apply String.eqb_eq in E. subst k'. injection H as ->. simpl.
    f_equal. symmetry. unfold trim_at.
    erewrite map_ext_in; [apply map_id|].
    intros [k2 v2] Hin. simpl. rewrite orb_false_r.
    destruct (k2 =? k) eqn:E2; [|reflexivity].
    apply String.eqb_eq in E2. subst. exfalso. apply Hn.
    apply (in_map fst) in Hin. exact Hin.
  - f_equal. fold (trim_at [k] r). now apply IH.
Qed.

Lemma set_trim_one (k : string) (s : string) (o : obj) :
  NoDup (keys o) -> lookup k o = Some (VStr s) ->
  set k (VStr (trim s)) o = trim_at [k] o.
Proof.
  intros ND H. unfold set. rewrite H. now apply update_trim_one.
Qed.

End ObjectFacts.

(** ** Field validation *)

Section Validation.

Variable cfg : SiteConfig.

Lemma trim_at_not_string (k : string) (o : obj) :
  NoDup (keys o) -> (forall s, get o k <> VStr s) -> trim_at [k] o = o.
Proof.
  intros ND H. unfold trim_at. erewrite map_ext_in; [apply map_id|].
  intros [k' v] Hin. simpl. rewrite orb_false_r.
  destruct (k' =? k) eqn:E; [|reflexivity].
  apply String.eqb_eq in E. subst k'.
  assert (get o k = v) as G.
  { clear H. induction o as [|[k2 v2] r IH]; [contradiction|].
    inversion ND as [|? ? Hn ND']; subst. unfold get. simpl.
    destruct Hin as [Heq|Hin].
    - injection Heq as -> ->. now rewrite String.eqb_refl.
    - destruct (k2 =? k) eqn:E2.
      + apply String.eqb_eq in E2. subst. exfalso. apply Hn.
        apply (in_map fst) in Hin. exact Hin.
      + now apply IH. }
  destruct v; try reflexivity. exfalso. now apply (H s).
Qed.

Lemma validate_step_spec (allowed : list string) (fs : obj)
  (inv : list string) (k : string) :
  NoDup (keys fs) ->
  validate_step allowed (fs, inv) k =
  (trim_at [k] fs,
   (inv ++ if invalid_test allowed fs k then [k] else [])%list).
Proof.
  intros ND. unfold validate_step, invalid_test.
  rewrite indexOf_absent. f_equal.
  - destruct (get fs k) eqn:G;
      try (symmetry; apply trim_at_not_string;
           [assumption | intros s'; rewrite G; discriminate]).
    apply set_trim_one; [assumption|].
    unfold get in G. destruct (lookup k fs); [now subst | discriminate].
  - destruct (_ && _); [reflexivity | now rewrite app_nil_r].
Qed.

Lemma trim_at_cons (k : string) (ks : list string) (o : obj) :
  ~ In k ks -> trim_at ks (trim_at [k] o) = trim_at (k :: ks) o.
Proof.
  intros Hn. unfold trim_at. rewrite map_map. apply map_ext.
  intros [k' v]. simpl. rewrite orb_false_r.
  destruct (k' =? k) eqn:E; simpl; [|reflexivity].
  apply String.eqb_eq in E. subst k'.
  apply existsb_eqb_notIn in Hn. now rewrite Hn.
Qed.

Lemma validate_fold (allowed ks : list string) :
  forall (fs : obj) (inv : list string),
    NoDup (keys fs) -> NoDup ks ->
    fold_left (validate_step allowed) ks (fs, inv) =
    (trim_at ks fs, (inv ++ filter (invalid_test allowed fs) ks)%list).
Proof.
  induction ks as [|k ks IH]; intros fs inv NDf NDk; cbn [fold_left filter].
  - now rewrite trim_at_nil, app_nil_r.
  - inversion NDk as [|? ? Hn NDk']; subst.
    rewrite validate_step_spec by assumption.
    rewrite IH; [|now rewrite keys_trim_at | assumption].
    rewrite trim_at_cons by assumption. f_equal.
    rewrite <- app_assoc. f_equal.
    assert (filter (invalid_test allowed (trim_at [k] fs)) ks
            = filter (invalid_test allowed fs) ks) as ->.
    { apply filter_ext_in. intros k' Hin. unfold invalid_test.
      rewrite get_trim_at. simpl. rewrite orb_false_r.
      destruct (k' =? k) eqn:E; [|reflexivity].
      apply String.eqb_eq in E. now subst. }
    now destruct (invalid_test allowed fs k).
Qed.

Lemma validate_loop_spec (fs : obj) :
  NoDup (keys fs) ->
  validate_loop cfg fs =
  (trim_all fs, filter (invalid_test (allowedFields cfg) fs) (keys fs)).
Proof.
  intros ND. unfold validate_loop.
  rewrite validate_fold by assumption. now rewrite trim_at_keys.
Qed.

Lemma trimmedFields_spec (fs : obj) :
  NoDup (keys fs) -> trimmedFields cfg fs = trim_all fs.
Proof.
  intros ND. unfold trimmedFields. now rewrite validate_loop_spec.
Qed.

Lemma invalidFields_spec (fs : obj) :
  NoDup (keys fs) ->
  invalidFields cfg fs = filter (invalid_test (allowedFields cfg) fs) (keys fs).
Proof.
  intros ND. unfold invalidFields. now rewrite validate_loop_spec.
Qed.

Lemma get_trim_all (fs : obj) (k : string) :
  get (trim_all fs) k = trim_value (get fs k).
Proof.
  rewrite <- trim_at_keys, get_trim_at.
  destruct (existsb (String.eqb k) (keys fs)) eqn:E; [reflexivity|].
  apply existsb_eqb_notIn in E. now rewrite (get_absent _ _ E).
Qed.


Lemma all_white_space_trimStart (s : string) :
  all_white_space s = true -> trimStart s = "".
Proof.
  induction s as [|c r IH]; simpl; [reflexivity|].
  intros H. apply andb_true_iff in H as [Hc Hr]. rewrite Hc. now apply IH.
Qed.

Lemma all_white_space_trim (s : string) :
  all_white_space s = true -> trim s = "".
Proof.
  intros H. unfold trim. now rewrite all_white_space_trimStart.
Qed.

Lemma trimStart_head (s : string) :
  match trimStart s with
  | "" => True
  | String c _ => is_white_space c = false
  end.
Proof.
  induction s as [|c r IH]; simpl; [exact I|].
  destruct (is_white_space c) eqn:E; [exact IH | exact E].
Qed.

Lemma trimEnd_cons (c : ascii) (r : string) :
  trimEnd (String c r)
  = match trimEnd r with
    | "" => if is_white_space c then "" else String c ""
    | r' => String c r'
    end.
Proof. reflexivity. Qed.

Lemma trimEnd_last (s : string) :
  match last_char (trimEnd s) with
  | Some c => is_white_space c = false
  | None => True
  end.
Proof.
  induction s as [|c r IH]; [exact I|].
  rewrite trimEnd_cons. destruct (trimEnd r) as [|d r'] eqn:E.
  - destruct (is_white_space c) eqn:W; simpl; [exact I | exact W].
  - exact IH.
Qed.

Lemma trim_head (s : string) :
  match trim s with
  | "" => True
  | String c _ => is_white_space c = false
  end.
Proof.
  unfold trim. pose proof (trimStart_head s) as H.
  destruct (trimStart s) as [|c r]; [exact I|].
  rewrite trimEnd_cons. destruct (trimEnd r).
  - rewrite H. exact H.
  - exact H.
Qed.



Lemma member_own (o : obj) (k : string) :
  In k (keys o) -> member o k = get o k.
Proof.
  intros H. unfold member, get. destruct (lookup k o) eqn:L; [reflexivity|].
  apply lookup_None_keys in L. contradiction.
Qed.







End Validation.

Lemma is_undefined_spec (v : value) : is_undefined v = true <-> v = VUndefined.
Proof. destruct v; simpl; split; congruence. Qed.

Lemma validate_loop_result (cfg : SiteConfig) (fields : obj) :
  well_formed fields = true ->
  invalidFields cfg fields
  = filter (invalid_test (allowedFields cfg) fields) (keys fields)
  /\ trimmedFields cfg fields = trim_all fields.
Proof.
  intros WF. apply distinct_NoDup in WF.
  split; [now apply invalidFields_spec | now apply trimmedFields_spec].
Qed.




(** C9.  The two checks of the validation sit on either side of the
    trimming.  A submitted value that is not empty and made of white space
    only is trimmed to the empty string; the check of the fields that are
    not allowed reads it before, and records the field as invalid; the
    check of the required fields reads it after, and records the field as
    missing. *)
Theorem validation_trim_asymmetry (cfg : SiteConfig) (fields : obj)
  (f s : string) :
  well_formed fields = true ->
  get fields f = VStr s -> s <> "" -> all_white_space s = true ->
  get (trimmedFields cfg fields) f = VStr ""
  /\ (~ In f (allowedFields cfg) -> In f (invalidFields cfg fields))
  /\ (In f (requiredFields cfg) -> In f (missingRequiredFields cfg fields)).
Proof.
  intros WF G Hs Hw.
  destruct (validate_loop_result cfg fields WF) as (HI & HT).
  assert (get (trimmedFields cfg fields) f = VStr "") as Ht.
  { rewrite HT, get_trim_all, G. simpl. now rewrite all_white_space_trim. }
  split; [exact Ht|]. split.
  - intros Ha. rewrite HI. apply filter_In. split.
    + destruct (in_dec string_dec f (keys fields)) as [Hin|Hin];
        [assumption|].
      rewrite (get_absent _ _ Hin) in G. discriminate.
    + unfold invalid_test. apply existsb_eqb_notIn in Ha. rewrite Ha, G.
      simpl. apply negb_true_iff. now apply String.eqb_neq.
  - intros Hr. unfold missingRequiredFields. apply filter_In.
    split; [assumption|]. rewrite member_own; [now rewrite Ht|].
    destruct (in_dec string_dec f (keys (trimmedFields cfg fields)))
      as [Hin|Hin]; [assumption|].
    rewrite (get_absent _ _ Hin) in Ht. discriminate.
Qed.

Lemma validation_trim_asymmetry_witness :
  get Sample.blank_fields "x" = VStr "  "
  /\ In "x" (invalidFields Sample.site Sample.blank_fields)
  /\ get Sample.blank_fields "name" = VStr "  "
  /\ In "name" (missingRequiredFields Sample.site Sample.blank_fields).
Proof.
  split; [reflexivity|]. split.
  - apply (validation_trim_asymmetry Sample.site Sample.blank_fields "x" "  ");
      try reflexivity; [discriminate|].
    simpl. intuition discriminate.
  - split; [reflexivity|].
    apply (validation_trim_asymmetry Sample.site Sample.blank_fields
             "name" "  "); try reflexivity; [discriminate|].
    simpl. tauto.
Defined.

(** ** Configuration *)

(** C4.  Configuration validation.  A configuration that is not there
    (any falsy value) fails with [MISSING_CONFIG_BLOCK].  Otherwise the
    missing names are exactly those of [allowedFields], [branch],
    [format], [path] whose lookup is [undefined]; if there is one, the
    validation fails with [MISSING_CONFIG_FIELDS] and this list; if there
    is none and the configuration declares no origins, or the origin of
    the request has the host name of one of them, the validation succeeds
    and stores the site configuration. *)
Theorem validateConfig_required_fields (w : World) (st : Staticman)
  (config : value) :
  (truthy config = false ->
   validateConfig w st config = Invalid (ErrConfig "MISSING_CONFIG_BLOCK" None))
  /\ (forall name, In name (missingConfigFields config) <->
                   In name ["allowedFields"; "branch"; "format"; "path"]
                   /\ objectPath_get config name = VUndefined)
  /\ (truthy config = true -> missingConfigFields config <> [] ->
      validateConfig w st config
      = Invalid (ErrConfig "MISSING_CONFIG_FIELDS"
                   (Some (missingConfigFields config))))
  /\ (truthy config = true -> missingConfigFields config = [] ->
      (truthy (prop config "allowedOrigins")
       && truthy (prop (prop config "allowedOrigins") "length") = false
       \/ exists origin origins,
            get (options st) "origin" = VStr origin /\ origin <> ""
            /\ prop config "allowedOrigins" = VArr origins
            /\ exists o, In o origins
                         /\ strict_eq o (url_hostname w origin) = true) ->
      validateConfig w st config
      = Valid (set_siteConfig st (newSiteConfig w config))).
Proof.
  split; [|split; [|split]].
  - intros H. unfold validateConfig. now rewrite H.
  - intros name. unfold missingConfigFields. rewrite filter_In.
    now rewrite is_undefined_spec.
  - intros H M. unfold validateConfig. rewrite H. simpl.
    destruct (missingConfigFields config); [contradiction | reflexivity].
  - intros H M Ho. unfold validateConfig. rewrite H, M. simpl.
    destruct Ho as [Ho | (origin & origins & Go & Ne & Ha & o & Hin & He)].
    + now rewrite Ho.
    + rewrite Ha, Go. simpl.
      assert (existsb (fun o0 => strict_eq o0 (url_hostname w origin)) origins
              = true) as ->.
      { apply existsb_exists. now exists o. }
      apply String.eqb_neq in Ne. rewrite Ne. simpl.
      now destruct (negb (Z.of_nat (List.length origins) =? 0)%Z).
Qed.

Lemma validateConfig_required_fields_witness :
  validateConfig Sample.world (Sample.request Sample.site [] [])
    Sample.partConfig
  = Invalid (ErrConfig "MISSING_CONFIG_FIELDS" (Some ["format"; "path"])).
Proof.
  apply (proj1 (proj2 (proj2 (validateConfig_required_fields Sample.world
                                (Sample.request Sample.site [] [])
                                Sample.partConfig))));
    [reflexivity | discriminate].
Defined.

Lemma strict_eq_VStr (a : string) (h : value) :
  strict_eq (VStr a) h = true <-> h = VStr a.
Proof.
  destruct h; simpl; try (split; discriminate).
  rewrite String.eqb_eq. split; [now intros -> | now intros [= ->]].
Qed.

Lemma some_origin_In (names : list string) (h : value) :
  existsb (fun o => strict_eq o h) (map VStr names) = true
  <-> In h (map VStr names).
Proof.
  rewrite existsb_exists. split.
  - intros [o [Hin He]]. apply in_map_iff in Hin as [a [<- Ha]].
    apply strict_eq_VStr in He. subst h. now apply in_map.
  - intros Hin. exists h. split; [assumption|].
    apply in_map_iff in Hin as [a [<- _]]. now apply strict_eq_VStr.
Qed.

(** The origin check of [_validateConfig], once the required fields are
    there and [allowedOrigins] is a non-empty array of names. *)
Lemma validateConfig_with_origins (w : World) (st : Staticman)
  (config : value) (names : list string) :
  truthy config = true -> missingConfigFields config = [] ->
  prop config "allowedOrigins" = VArr (map VStr names) -> names <> [] ->
  validateConfig w st config =
  if truthy (get (options st) "origin") then
    match get (options st) "origin" with
    | VStr origin =>
        if existsb (fun o => strict_eq o (url_hostname w origin))
             (map VStr names)
        then Valid (set_siteConfig st (newSiteConfig w config))
        else Invalid (ErrConfig "INVALID_ORIGIN" None)
    | _ => Throws
    end
  else Invalid (ErrConfig "MISSING_ORIGIN" None).
Proof.
  intros H M Ha Hn. unfold validateConfig. rewrite H, M, Ha. simpl.
  destruct names as [|n names]; [contradiction|]. simpl.
  destruct (truthy (get (options st) "origin")); [|reflexivity].
  destruct (get (options st) "origin"); try reflexivity.
  match goal with
  | |- (if negb ?b then _ else _) = _ => now destruct b
  end.
Qed.

(** C7.  Origin authorization.  For a configuration that has its required
    fields and declares a non-empty list of allowed origins: the
    validation fails with [MISSING_ORIGIN] when the request has no origin;
    with an origin, it fails with [INVALID_ORIGIN] when the host name
    parsed from it is no entry of the list, and succeeds when it is one.
    With the list ["example.com"], the origin http://evil.com (host name
    evil.com) is rejected and http://example.com/page (host name
    example.com) is accepted. *)
Theorem validateConfig_origin (w : World) (st : Staticman) (config : value)
  (names : list string) :
  truthy config = true -> missingConfigFields config = [] ->
  prop config "allowedOrigins" = VArr (map VStr names) -> names <> [] ->
  (truthy (get (options st) "origin") = false ->
   validateConfig w st config = Invalid (ErrConfig "MISSING_ORIGIN" None))
  /\ (forall origin,
        get (options st) "origin" = VStr origin -> origin <> "" ->
        (~ In (url_hostname w origin) (map VStr names) ->
         validateConfig w st config = Invalid (ErrConfig "INVALID_ORIGIN" None))
        /\ (In (url_hostname w origin) (map VStr names) ->
            validateConfig w st config
            = Valid (set_siteConfig st (newSiteConfig w config))))
  /\ (names = ["example.com"] ->
      (get (options st) "origin" = VStr "http://evil.com" ->
       url_hostname w "http://evil.com" = VStr "evil.com" ->
       validateConfig w st config = Invalid (ErrConfig "INVALID_ORIGIN" None))
      /\ (get (options st) "origin" = VStr "http://example.com/page" ->
          url_hostname w "http://example.com/page" = VStr "example.com" ->
          validateConfig w st config
          = Valid (set_siteConfig st (newSiteConfig w config)))).
Proof.
  intros H M Ha Hn.
  pose proof (validateConfig_with_origins w st config names H M Ha Hn) as E.
  split; [|split].
  - intros Ho. now rewrite Ho in E.
  - intros origin Go Ne. rewrite Go in E. simpl in E.
    apply String.eqb_neq in Ne. rewrite Ne in E. simpl in E.
    split; intros Hin.
    + rewrite <- some_origin_In in Hin.
      apply not_true_is_false in Hin. now rewrite Hin in E.
    + apply some_origin_In in Hin. now rewrite Hin in E.
  - intros ->. split; intros Go Hh; rewrite Go, Hh in E; exact E.
Qed.

Lemma validateConfig_origin_witness :
  validateConfig Sample.world
    (Sample.request Sample.site [] [("origin", VStr "http://evil.com")])
    Sample.rawConfig
  = Invalid (ErrConfig "INVALID_ORIGIN" None)
  /\ validateConfig Sample.world
       (Sample.request Sample.site [] [("origin", VStr "http://example.com/page")])
       Sample.rawConfig
     = Valid (set_siteConfig
                (Sample.request Sample.site []
                   [("origin", VStr "http://example.com/page")])
                (newSiteConfig Sample.world Sample.rawConfig)).
Proof.
  split.
  - refine (proj1 (proj2 (proj2 (validateConfig_origin Sample.world _
                                   Sample.rawConfig ["example.com"]
                                   _ _ _ _)) eq_refl) _ _);
      try reflexivity; discriminate.
  - refine (proj2 (proj2 (proj2 (validateConfig_origin Sample.world _
                                   Sample.rawConfig ["example.com"]
                                   _ _ _ _)) eq_refl) _ _);
      try reflexivity; discriminate.
Defined.

(** ** Serialization *)

Lemma keys_delete (k : string) (o : obj) : ~ In k (keys (delete k o)).
Proof.
  induction o as [|[k' v] r IH]; simpl; [tauto|].
  destruct (k' =? k) eqn:E; [assumption|].
  simpl. apply String.eqb_neq in E. tauto.
Qed.

Lemma contentField_declared (cfg : SiteConfig) (cf : string) :
  contentField cfg = Some cf ->
  exists tr, transforms cfg = Some tr /\ In cf (keys tr)
             /\ get tr cf = VStr "frontmatterContent".
Proof.
  unfold contentField. destruct (transforms cfg) as [tr|]; [|discriminate].
  intros H. apply find_some in H as [Hin He]. exists tr.
  split; [reflexivity|]. split; [assumption|].
  unfold strict_eq_str in He. destruct (get tr cf); try discriminate.
  apply String.eqb_eq in He. now subst.
Qed.

Lemma contentField_none (cfg : SiteConfig) :
  (forall tr k, transforms cfg = Some tr ->
                get tr k <> VStr "frontmatterContent") ->
  contentField cfg = None.
Proof.
  intros H. unfold contentField. destruct (transforms cfg) as [tr|] eqn:T;
    [|reflexivity].
  destruct (find _ (keys tr)) as [k|] eqn:F; [|reflexivity].
  apply find_some in F as [_ He]. exfalso. apply (H tr k eq_refl).
  unfold strict_eq_str in He. destruct (get tr k); try discriminate.
  apply String.eqb_eq in He. now subst.
Qed.

(** C3.  Serialization by format.  In the [frontmatter] format, when no
    field of [transforms] is declared as [frontmatterContent] the
    serialization fails with [NO_FRONTMATTER_CONTENT_TRANSFORM]; when it
    succeeds, a field [cf] is declared so, it is removed from the mapping,
    and the output is a line [---], the YAML of the remaining fields, a
    line [---], and the value read at [cf] on a line.  With the content field
    [body = "Hello"] and the other field [title = "T"] the document is
    [---], the YAML of [{title: "T"}], [---], [Hello].  A format that is
    none of [json], [yaml], [yml], [frontmatter] (the case of the letters
    apart) fails with [INVALID_FORMAT]. *)
Theorem createFile_by_format (w : World) (cfg : SiteConfig) (fields : obj) :
  (toLowerCase (format cfg) = "frontmatter" ->
   (forall tr k, transforms cfg = Some tr ->
                 get tr k <> VStr "frontmatterContent") ->
   fst (createFile w cfg fields)
   = inl (ErrCode "NO_FRONTMATTER_CONTENT_TRANSFORM"))
  /\ (toLowerCase (format cfg) = "frontmatter" ->
      forall output, fst (createFile w cfg fields) = inr output ->
      exists tr cf y,
        transforms cfg = Some tr
        /\ get tr cf = VStr "frontmatterContent"
        /\ snd (createFile w cfg fields) = delete cf fields
        /\ ~ In cf (keys (snd (createFile w cfg fields)))
        /\ yaml_safeDump w (delete cf fields) = inr y
        /\ output = "---" ++ nl ++ y ++ "---" ++ nl
                    ++ js_toString (member fields cf) ++ nl)
  /\ (format cfg = "frontmatter" ->
      transforms cfg = Some [("body", VStr "frontmatterContent")] ->
      fields = [("body", VStr "Hello"); ("title", VStr "T")] ->
      forall y, yaml_safeDump w [("title", VStr "T")] = inr y ->
      fst (createFile w cfg fields)
      = inr ("---" ++ nl ++ y ++ "---" ++ nl ++ "Hello" ++ nl))
  /\ (~ In (toLowerCase (format cfg)) ["json"; "yaml"; "yml"; "frontmatter"] ->
      fst (createFile w cfg fields) = inl (ErrCode "INVALID_FORMAT")).
Proof.
  split; [|split; [|split]].
  - intros F H. unfold createFile. rewrite F. simpl.
    now rewrite (contentField_none cfg H).
  - intros F output. unfold createFile. rewrite F. simpl.
    destruct (contentField cfg) as [cf|] eqn:C; [|discriminate].
    destruct (cf =? ""); [discriminate|]. simpl.
    destruct (yaml_safeDump w (delete cf fields)) as [e|y] eqn:Y;
      [discriminate|].
    intros [= <-].
    destruct (contentField_declared cfg cf C) as (tr & T & _ & G).
    exists tr, cf, y. repeat split; try assumption. apply keys_delete.
  - intros F T -> y Y. unfold createFile, contentField. rewrite F, T.
    simpl. now rewrite Y.
  - intros H. unfold createFile.
    assert (forall x, In x ["json"; "yaml"; "yml"; "frontmatter"] ->
                      (toLowerCase (format cfg) =? x) = false) as N.
    { intros x Hx. apply String.eqb_neq. intros E. apply H. now rewrite E. }
    rewrite !N by (simpl; auto 6). reflexivity.
Qed.

Lemma createFile_by_format_witness :
  fst (createFile Sample.world Sample.frontmatter_site Sample.hello_fields)
  = inr ("---" ++ nl ++ ("title: T" ++ nl) ++ "---" ++ nl ++ "Hello" ++ nl)
  /\ fst (createFile Sample.world (Sample.with_format Sample.site "xml") [])
     = inl (ErrCode "INVALID_FORMAT").
Proof.
  split.
  - apply (proj1 (proj2 (proj2 (createFile_by_format Sample.world
                                  Sample.frontmatter_site
                                  Sample.hello_fields))));
      reflexivity.
  - apply (proj2 (proj2 (proj2 (createFile_by_format Sample.world
                                  (Sample.with_format Sample.site "xml") []))));
      simpl; intuition discriminate.
Defined.

(** ** The pipeline *)

Lemma getSiteConfig_no_write (w : World) (st : Staticman) (force : bool) :
  existsb is_write (fst (getSiteConfig w st force)) = false.
Proof.
  unfold getSiteConfig.
  destruct (siteConfig st), force, (configPath st) as [[file p]|];
    reflexivity.
Qed.

(** The run up to a verdict of the classifier that is an error or
    "spam": the call of the classifier is the last one. *)
Lemma prepareEntry_rejected (w : World) (st st' : Staticman)
  (cfg : SiteConfig) (ev : list event) :
  getSiteConfig w st false = (ev, inr (st', cfg)) ->
  akismet_enabled cfg = true ->
  let req := spamRequest st' cfg (fields st') in
  truthy (fst (checkSpam w req)) || truthy (snd (checkSpam w req)) = true ->
  prepareEntry w st =
  ((ev ++ [ECheckSpam req])%list,
   inl (if truthy (fst (checkSpam w req))
        then ErrThrown (fst (checkSpam w req)) else ErrCode "IS_SPAM")).
Proof.
  intros G A req V. unfold prepareEntry. rewrite G.
  unfold checkForSpam. rewrite A. simpl. fold req.
  destruct (checkSpam w req) as [err isSpam]. simpl in *.
  destruct (truthy err); [reflexivity|]. simpl in V. now rewrite V.
Qed.

(** C6.  Spam short-circuit.  In a run whose configuration is loaded and
    enables the spam check: when the classifier answers "spam" the run
    fails with [IS_SPAM], when it fails the run fails with its error; in
    both cases the call of the classifier is the last call made on a
    collaborator, and no write (file write, or branch with file and
    review request) is among the calls of the run. *)
Theorem spam_short_circuit (w : World) (st st' : Staticman)
  (cfg : SiteConfig) (ev : list event) :
  getSiteConfig w st false = (ev, inr (st', cfg)) ->
  akismet_enabled cfg = true ->
  let req := spamRequest st' cfg (fields st') in
  let err := fst (checkSpam w req) in
  let isSpam := snd (checkSpam w req) in
  (truthy err = false -> truthy isSpam = true ->
   snd (processEntry w st) = inl (ErrCode "IS_SPAM")
   /\ fst (processEntry w st) = (ev ++ [ECheckSpam req])%list
   /\ existsb is_write (fst (processEntry w st)) = false)
  /\ (truthy err = true ->
      snd (processEntry w st) = inl (ErrThrown err)
      /\ fst (processEntry w st) = (ev ++ [ECheckSpam req])%list
      /\ existsb is_write (fst (processEntry w st)) = false).
Proof.
  intros G A req err isSpam.
  assert (existsb is_write (ev ++ [ECheckSpam req]) = false) as NW.
  { rewrite existsb_app. simpl.
    pose proof (getSiteConfig_no_write w st false) as H.
    rewrite G in H. simpl in H. now rewrite H. }
  split.
  - intros He Hs. unfold processEntry.
    rewrite (prepareEntry_rejected w st st' cfg ev G A).
    + fold req err. rewrite He. repeat split. exact NW.
    + fold req err isSpam. rewrite He, Hs. reflexivity.
  - intros He. unfold processEntry.
    rewrite (prepareEntry_rejected w st st' cfg ev G A).
    + fold req err. rewrite He. repeat split. exact NW.
    + fold req err. rewrite He. reflexivity.
Qed.

Lemma spam_short_circuit_witness :
  processEntry Sample.spam_world
    (Sample.request Sample.akismet_site [("name", VStr "Bob")] [])
  = ([ECheckSpam (spamRequest
                    (Sample.request Sample.akismet_site
                       [("name", VStr "Bob")] [])
                    Sample.akismet_site [("name", VStr "Bob")])],
     inl (ErrCode "IS_SPAM"))
  /\ snd (processEntry Sample.broken_world
            (Sample.request Sample.akismet_site [("name", VStr "Bob")] []))
     = inl (ErrThrown (VStr "ETIMEDOUT")).
Proof.
  split.
  - pose proof (proj1 (spam_short_circuit Sample.spam_world
                         (Sample.request Sample.akismet_site
                            [("name", VStr "Bob")] [])
                         _ _ _ eq_refl eq_refl) eq_refl eq_refl)
      as (H1 & H2 & _).
    rewrite (surjective_pairing (processEntry _ _)), H1, H2. reflexivity.
  - exact (proj1 (proj2 (spam_short_circuit Sample.broken_world
                           (Sample.request Sample.akismet_site
                              [("name", VStr "Bob")] [])
                           _ _ _ eq_refl eq_refl) eq_refl)).
Defined.

(** ** Path resolution *)

Lemma last_char_app (q : string) (c : ascii) :
  last_char (q ++ String c "") = Some c.
Proof.
  induction q as [|a q IH]; simpl; [reflexivity|].
  rewrite IH. destruct (q ++ String c "") eqn:E; [|reflexivity].
  destruct q; discriminate.
Qed.

Lemma remove_last_app (q : string) (c : ascii) :
  remove_last (q ++ String c "") = q.
Proof.
  induction q as [|a q IH]; simpl; [reflexivity|].
  rewrite IH. destruct (q ++ String c "") eqn:E; [|reflexivity].
  destruct q; discriminate.
Qed.

Lemma last_char_split (p : string) (c : ascii) :
  last_char p = Some c -> p = remove_last p ++ String c "".
Proof.
  induction p as [|a p IH]; simpl; [discriminate|].
  destruct p as [|b p]; [now intros [= ->]|].
  intros H. simpl. f_equal. now apply IH.
Qed.

Lemma getExtensionForFormat_spec (fmt ext : string) :
  extension_of (toLowerCase fmt) ext -> getExtensionForFormat fmt = VStr ext.
Proof.
  unfold extension_of, getExtensionForFormat.
  intros [[-> ->] | [[[-> | ->] ->] | [-> ->]]]; reflexivity.
Qed.

Lemma resolve_parent_dir (w : World) (st : Staticman) (data : obj) :
  get (options st) "parent" = VStr "123" ->
  resolvePlaceholders w st "posts/{options.parent}" (context st data)
  = "posts/123".
Proof.
  intros P. unfold resolvePlaceholders, context. simpl.
  unfold resolve_step, newText. simpl.
  unfold objectPath_get. simpl. unfold get in *. simpl.
  destruct (lookup "parent" (options st)); [|discriminate].
  subst v. reflexivity.
Qed.

Lemma resolve_id (w : World) (st : Staticman) (ctx : value) :
  uid st = "abc" -> resolvePlaceholders w st "{@id}" ctx = "abc".
Proof.
  intros U. unfold resolvePlaceholders. simpl.
  unfold resolve_step, newText. simpl. now rewrite U.
Qed.

Lemma resolve_parent_id (w : World) (st : Staticman) (data : obj) :
  get (options st) "parent" = VStr "123" -> uid st = "abc" ->
  resolvePlaceholders w st "{options.parent}/{@id}" (context st data)
  = "123/abc".
Proof.
  intros P U. unfold resolvePlaceholders, context. simpl.
  unfold resolve_step, newText. simpl.
  unfold objectPath_get. simpl. unfold get in *. simpl.
  destruct (lookup "parent" (options st)); [|discriminate].
  subst v. rewrite U. reflexivity.
Qed.

(** The two ways of reading [posts/{options.parent}/{@id}] as a path
    template, a [/] and a file name template. *)
Lemma template_splits (p f : string) :
  p ++ "/" ++ f = "posts/{options.parent}/{@id}" ->
  (p = "posts" /\ f = "{options.parent}/{@id}")
  \/ (p = "posts/{options.parent}" /\ f = "{@id}").
Proof.
  intros H.
  repeat (destruct p as [|? p]; simpl in H;
          [ first [ discriminate H
                  | injection H as H; subst f;
                    first [ left; split; reflexivity
                          | right; split; reflexivity ] ]
          | first [ discriminate H | injection H as ? H; subst ] ]).
Qed.

(** C5.  Path resolution.  The path of the new file is the resolved path
    template, less one trailing [/] if it has one, then [/], the resolved
    file name template (the unique identifier when no file name template
    is configured), a dot, and the extension of the format: [json] for
    json, [yml] for yaml and yml, [md] for frontmatter.  When the path
    template, a [/] and the file name template make up
    [posts/{options.parent}/{@id}], with [options.parent = "123"] and the
    identifier [abc], the path is [posts/123/abc.] followed by the
    extension. *)
Theorem getNewFilePath_correct (w : World) (st : Staticman)
  (cfg : SiteConfig) (data : obj) (ext : string) :
  extension_of (toLowerCase (format cfg)) ext ->
  let p := resolvePlaceholders w st (path cfg) (context st data) in
  let name :=
    if filename cfg =? "" then uid st
    else resolvePlaceholders w st (filename cfg) (context st data) in
  (forall q, p = q ++ "/" ->
             getNewFilePath w st cfg data = q ++ "/" ++ name ++ "." ++ ext)
  /\ ((forall q, p <> q ++ "/") ->
      getNewFilePath w st cfg data = p ++ "/" ++ name ++ "." ++ ext)
  /\ (path cfg ++ "/" ++ filename cfg = "posts/{options.parent}/{@id}" ->
      get (options st) "parent" = VStr "123" -> uid st = "abc" ->
      getNewFilePath w st cfg data = "posts/123/abc." ++ ext).
Proof.
  intros E p name.
  assert (getNewFilePath w st cfg data =
          (match last_char p with
           | Some c => if (c =? "/")%char then remove_last p else p
           | None => p
           end) ++ "/" ++ name ++ "." ++ ext) as G.
  { unfold getNewFilePath. rewrite (getExtensionForFormat_spec _ _ E).
    fold p. subst name. now destruct (filename cfg =? ""). }
  split; [|split].
  - intros q Hq. rewrite G, Hq.
    change (q ++ "/") with (q ++ String "/" "").
    now rewrite last_char_app, remove_last_app.
  - intros Hn. rewrite G. destruct (last_char p) as [c|] eqn:L; [|reflexivity].
    destruct (c =? "/")%char eqn:C; [|reflexivity].
    apply Ascii.eqb_eq in C. subst c. apply last_char_split in L.
    exfalso. exact (Hn _ L).
  - intros T O U. rewrite G. subst p name.
    destruct (template_splits _ _ T) as [[P F] | [P F]]; rewrite P, F.
    + rewrite (resolve_parent_id w st data O U). reflexivity.
    + rewrite (resolve_parent_dir w st data O).
      simpl. now rewrite (resolve_id w st _ U).
Qed.

Lemma getNewFilePath_correct_witness :
  getNewFilePath Sample.world
    (Sample.request Sample.site [] [("parent", VStr "123")])
    Sample.site [] = "posts/123/abc.json"
  /\ getNewFilePath Sample.world
       (Sample.request Sample.frontmatter_site [] [("parent", VStr "123")])
       Sample.frontmatter_site [] = "posts/123/abc.md".
Proof.
  split.
  - refine (proj2 (proj2 (getNewFilePath_correct Sample.world
                            (Sample.request Sample.site []
                               [("parent", VStr "123")])
                            Sample.site [] "json" _))
              eq_refl eq_refl eq_refl).
    left. split; reflexivity.
  - refine (proj2 (proj2 (getNewFilePath_correct Sample.world
                            (Sample.request Sample.frontmatter_site []
                               [("parent", VStr "123")])
                            Sample.frontmatter_site [] "md" _))
              eq_refl eq_refl eq_refl).
    right. right. split; reflexivity.
Defined.

(** With the whole of [posts/{options.parent}/{@id}] as the path template
    and no file name template, the identifier comes twice: once from the
    path and once as the default file name. *)
Example path_template_alone :
  getNewFilePath Sample.world
    (Sample.request Sample.path_only_site [] [("parent", VStr "123")])
    Sample.path_only_site [] = "posts/123/abc/abc.json".
Proof. reflexivity. Qed.

(** ** Internal fields *)

Section AssignFacts.

Lemma lookup_update (k k' : string) (v : value) (o : obj) :
  lookup k' (update k v o)
  = if k =? k'
    then match lookup k o with Some _ => Some v | None => None end
    else lookup k' o.
Proof.
  induction o as [|[k2 v2] r IH]; simpl; [now destruct (k =? k')|].
  destruct (k2 =? k) eqn:E; simpl.
  - apply String.eqb_eq in E. subst k2. now destruct (k =? k').
  - rewrite IH. destruct (k2 =? k') eqn:E2; [|reflexivity].
    apply String.eqb_eq in E2. subst k2.
    rewrite String.eqb_sym in E. now rewrite E.
Qed.

Lemma keys_update (k : string) (v : value) (o : obj) :
  keys (update k v o) = keys o.
Proof.
  induction o as [|[k2 v2] r IH]; simpl; [reflexivity|].
  destruct (k2 =? k) eqn:E; simpl.
  - apply String.eqb_eq in E. now subst.
  - now rewrite IH.
Qed.

(** A new array index goes somewhere in the object, the rest keeping its
    order. *)
Lemma insert_index_split (i : N) (k : string) (v : value) (o : obj) :
  exists a b, o = (a ++ b)%list
              /\ insert_index i k v o = (a ++ (k, v) :: b)%list.
Proof.
  induction o as [|[k2 v2] r (a & b & E & H)]; simpl.
  - now exists [], [].
  - destruct (array_index k2) as [j|]; [destruct (j <? i)%N|].
    + exists ((k2, v2) :: a), b. simpl. now rewrite <- E, H.
    + now exists [], ((k2, v2) :: r).
    + now exists [], ((k2, v2) :: r).
Qed.

Lemma set_present (k : string) (v : value) (o : obj) :
  In k (keys o) -> set k v o = update k v o.
Proof.
  intros H. unfold set. destruct (lookup k o) eqn:L; [reflexivity|].
  apply lookup_None_keys in L. contradiction.
Qed.

Lemma set_split (k : string) (v : value) (o : obj) :
  ~ In k (keys o) ->
  exists a b, o = (a ++ b)%list /\ set k v o = (a ++ (k, v) :: b)%list.
Proof.
  intros H. unfold set. apply lookup_None_keys in H. rewrite H.
  destruct (array_index k) as [i|]; [apply insert_index_split|].
  exists o, []. now rewrite app_nil_r.
Qed.

Lemma set_plain (k : string) (v : value) (o : obj) :
  ~ In k (keys o) -> array_index k = None ->
  set k v o = (o ++ [(k, v)])%list.
Proof.
  intros H A. unfold set. apply lookup_None_keys in H. now rewrite H, A.
Qed.

Lemma lookup_middle (k k' : string) (v : value) (a b : obj) :
  ~ In k (keys a) ->
  lookup k' (a ++ (k, v) :: b)%list
  = if k =? k' then Some v
    else lookup k' (a ++ b)%list.
Proof.
  induction a as [|[k2 v2] r IH]; simpl; intros H.
  - now destruct (k =? k').
  - destruct (k2 =? k') eqn:E.
    + apply String.eqb_eq in E. subst k2.
      destruct (k =? k') eqn:E2; [|reflexivity].
      apply String.eqb_eq in E2. subst. tauto.
    + apply IH. tauto.
Qed.

Lemma lookup_set (k k' : string) (v : value) (o : obj) :
  lookup k' (set k v o) = if k =? k' then Some v else lookup k' o.
Proof.
  destruct (in_dec string_dec k (keys o)) as [H | H].
  - rewrite (set_present _ _ _ H), lookup_update.
    destruct (k =? k'); [|reflexivity].
    destruct (lookup k o) eqn:L; [reflexivity|].
    apply lookup_None_keys in L. contradiction.
  - destruct (set_split k v o H) as (a & b & E & ->).
    rewrite lookup_middle.
    + now rewrite <- E.
    + intros Ha. apply H. rewrite E. unfold keys. rewrite map_app.
      apply in_or_app. now left.
Qed.

Lemma get_set (k k' : string) (v : value) (o : obj) :
  get (set k v o) k' = if k =? k' then v else get o k'.
Proof.
  unfold get. rewrite lookup_set. now destruct (k =? k').
Qed.




Lemma keys_set_present (k : string) (v : value) (o : obj) :
  In k (keys o) -> keys (set k v o) = keys o.
Proof.
  intros H. rewrite (set_present _ _ _ H). apply keys_update.
Qed.

Lemma keys_set_plain (k : string) (v : value) (o : obj) :
  ~ In k (keys o) -> array_index k = None ->
  keys (set k v o) = (keys o ++ [k])%list.
Proof.
  intros H A. rewrite set_plain by assumption.
  unfold keys. now rewrite map_app.
Qed.

Lemma In_keys_set (k k' : string) (v : value) (o : obj) :
  In k' (keys (set k v o)) <-> k' = k \/ In k' (keys o).
Proof.
  destruct (in_dec string_dec k (keys o)) as [H | H].
  - rewrite (set_present _ _ _ H), keys_update. split; [tauto|].
    now intros [-> | H'].
  - destruct (set_split k v o H) as (a & b & E & ->). rewrite E.
    unfold keys. rewrite !map_app, !in_app_iff. simpl.
    intuition congruence.
Qed.

Lemma NoDup_keys_set (k : string) (v : value) (o : obj) :
  NoDup (keys o) -> NoDup (keys (set k v o)).
Proof.
  intros ND. destruct (in_dec string_dec k (keys o)) as [H | H].
  - now rewrite (set_present _ _ _ H), keys_update.
  - destruct (set_split k v o H) as (a & b & E & ->). subst o.
    unfold keys in *. rewrite map_app in *. simpl.
    apply NoDup_Add with (a := k) (l := (map fst a ++ map fst b)%list);
      [apply Add_app | now split].
Qed.

(** [Object.assign]: a key of the source takes the value of the source,
    any other key keeps the value of the target. *)
Lemma get_assign (t s : obj) (k : string) :
  NoDup (keys s) ->
  get (assign t s) k = if existsb (String.eqb k) (keys s) then get s k
                       else get t k.
Proof.
  unfold assign. revert t.
  induction s as [|[k2 v2] r IH]; intros t ND; simpl; [reflexivity|].
  inversion ND as [|? ? Hn ND']; subst.
  rewrite IH by assumption. rewrite get_set.
  rewrite (String.eqb_sym k k2).
  destruct (k2 =? k) eqn:E; simpl.
  - apply String.eqb_eq in E. subst k2.
    apply existsb_eqb_notIn in Hn. rewrite Hn.
    unfold get. simpl. now rewrite String.eqb_refl.
  - unfold get at 3. simpl. rewrite E. reflexivity.
Qed.

Lemma In_keys_assign (t s : obj) (k : string) :
  In k (keys (assign t s)) <-> In k (keys t) \/ In k (keys s).
Proof.
  unfold assign. revert t.
  induction s as [|[k2 v2] r IH]; intros t; simpl; [tauto|].
  rewrite IH, In_keys_set. intuition congruence.
Qed.

End AssignFacts.

Section PipelineFacts.

Variable w : World.

Lemma validateConfig_Valid (st st' : Staticman) (config : value) :
  validateConfig w st config = Valid st' ->
  st' = set_siteConfig st (newSiteConfig w config).
Proof.
  unfold validateConfig.
  destruct (negb (truthy config)); [discriminate|].
  destruct (negb (is_nil (missingConfigFields config))); [discriminate|].
  destruct (truthy (prop config "allowedOrigins")
            && truthy (prop (prop config "allowedOrigins") "length")).
  - destruct (truthy (get (options st) "origin")); [|discriminate].
    destruct (get (options st) "origin"); try discriminate.
    destruct (prop config "allowedOrigins"); try discriminate.
    destruct (negb _); [discriminate | now intros [= <-]].
  - now intros [= <-].
Qed.

(** Loading the configuration leaves the request as it is. *)
Lemma getSiteConfig_frame (st st' : Staticman) (cfg : SiteConfig)
  (ev : list event) :
  getSiteConfig w st false = (ev, inr (st', cfg)) ->
  fields st' = fields st /\ options st' = options st /\ uid st' = uid st.
Proof.
  unfold getSiteConfig. destruct (siteConfig st) as [c|].
  - intros [= <- <- <-]. auto.
  - destruct (configPath st) as [[file p]|]; [|discriminate].
    destruct (readFile w file) as [e|d]; [discriminate|].
    destruct (validateConfig w st (objectPath_get d p)) as [| |st2] eqn:V;
      try discriminate.
    destruct (negb _); [discriminate|]. intros [= <- <- <-].
    apply validateConfig_Valid in V. subst st2. auto.
Qed.

Lemma generate_step_NoDup (st : Staticman) (gen : obj) (acc : error + obj)
  (field : string) (data' : obj) :
  (forall data, acc = inr data -> NoDup (keys data)) ->
  generate_step w st gen acc field = inr data' -> NoDup (keys data').
Proof.
  intros H. unfold generate_step. destruct acc as [e|data]; [discriminate|].
  specialize (H data eq_refl).
  destruct (get gen field); try (intros [= <-]; now apply NoDup_keys_set);
    try discriminate.
  destruct (strict_eq_str _ "date");
    [intros [= <-]; now apply NoDup_keys_set|].
  destruct (strict_eq_str _ "slugify"); [|now intros [= <-]].
  destruct (get (options st) "field");
    intros [= <-]; try assumption; now apply NoDup_keys_set.
Qed.

Lemma applyGeneratedFields_NoDup (st : Staticman) (cfg : SiteConfig)
  (data data' : obj) :
  NoDup (keys data) ->
  applyGeneratedFields w st cfg data = inr data' -> NoDup (keys data').
Proof.
  unfold applyGeneratedFields.
  destruct (generatedFields cfg) as [gen|]; [|now intros ND [= <-]].
  intros ND.
  assert (forall d, (inr data : error + obj) = inr d -> NoDup (keys d)) as H
    by now intros d [= <-].
  revert H. generalize (inr data : error + obj) as acc.
  induction (keys gen) as [|k ks IH]; intros acc H; simpl.
  - intros E. now apply H.
  - apply IH. intros d E. now apply (generate_step_NoDup st gen acc k).
Qed.

Lemma applyTransforms_NoDup (cfg : SiteConfig) (fs : obj) :
  NoDup (keys fs) -> NoDup (keys (applyTransforms w cfg fs)).
Proof.
  unfold applyTransforms. destruct (transforms cfg) as [tr|]; [|trivial].
  revert fs. induction (keys tr) as [|k ks IH]; intros fs ND; simpl;
    [assumption|].
  apply IH. unfold transform_step.
  destruct (negb _); [assumption|].
  destruct (strict_eq_str _ _); [now apply NoDup_keys_set | assumption].
Qed.

(** What a run that reaches the serializer has gone through. *)
Lemma prepareEntry_inr (st st2 : Staticman) (cfg : SiteConfig)
  (ev : list event) (ext : obj) :
  prepareEntry w st = (ev, inr (st2, cfg, ext)) ->
  exists st1 ev1 generated,
    getSiteConfig w st false = (ev1, inr (st1, cfg))
    /\ fst (validateFields cfg (fields st)) = None
    /\ applyGeneratedFields w st1 cfg (trimmedFields cfg (fields st))
       = inr generated
    /\ fields st2 = applyTransforms w cfg generated
    /\ options st2 = options st /\ uid st2 = uid st
    /\ ext = applyInternalFields st2 (fields st2).
Proof.
  unfold prepareEntry.
  destruct (getSiteConfig w st false) as [ev1 [e|[st1 c]]] eqn:G;
    [discriminate|].
  destruct (getSiteConfig_frame st st1 c ev1 G) as (Ff & Fo & Fu).
  destruct (checkForSpam w st1 c (fields st1)) as [ev2 r2] eqn:S.
  assert (forall f, r2 = inr f -> f = fields st) as Hs.
  { unfold checkForSpam in S. destruct (negb (akismet_enabled c)).
    - injection S as _ <-. intros f [= <-]. exact Ff.
    - destruct (checkSpam w _) as [err isSpam]. injection S as _ <-.
      destruct (truthy err); [discriminate|].
      destruct (truthy isSpam); [discriminate|].
      intros f [= <-]. exact Ff. }
  destruct r2 as [e|f]; [discriminate|]. rewrite (Hs f eq_refl).
  destruct (validateFields c (fields st)) as [[errs|] tf] eqn:V;
    [discriminate|].
  assert (tf = trimmedFields c (fields st)) as ->
    by (unfold validateFields in V; now injection V).
  destruct (applyGeneratedFields w st1 c _) as [e|g] eqn:A; [discriminate|].
  intros [= <- <- <- <-].
  exists st1, ev1, g. repeat split; try assumption.
  now rewrite V.
Qed.

End PipelineFacts.

Lemma processed_NoDup (w : World) (st st2 : Staticman) (cfg : SiteConfig)
  (ev : list event) (ext : obj) :
  well_formed (fields st) = true ->
  prepareEntry w st = (ev, inr (st2, cfg, ext)) ->
  NoDup (keys (fields st2)).
Proof.
  intros WF P.
  destruct (prepareEntry_inr w st st2 cfg ev ext P)
    as (st1 & ev1 & g & _ & _ & A & F & _).
  rewrite F. apply applyTransforms_NoDup.
  apply (applyGeneratedFields_NoDup w st1 cfg
           (trimmedFields cfg (fields st)) g); [|exact A].
  destruct (validate_loop_result cfg (fields st) WF) as [_ ->].
  unfold trim_all, keys. rewrite map_map. simpl.
  apply distinct_NoDup in WF. exact WF.
Qed.

Lemma internal_fields_assign (w : World) (st st2 : Staticman)
  (cfg : SiteConfig) (ev : list event) (ext : obj) :
  prepareEntry w st = (ev, inr (st2, cfg, ext)) ->
  In "_id" (keys ext)
  /\ ext = assign (if truthy (get (options st) "parent")
                   then [("_id", VStr (uid st));
                         ("_parent", get (options st) "parent")]
                   else [("_id", VStr (uid st))]) (fields st2).
Proof.
  intros P.
  destruct (prepareEntry_inr w st st2 cfg ev ext P)
    as (st1 & ev1 & g & _ & _ & _ & _ & O & U & E).
  unfold applyInternalFields in E. rewrite O, U in E.
  assert (ext = assign (if truthy (get (options st) "parent")
                        then [("_id", VStr (uid st));
                              ("_parent", get (options st) "parent")]
                        else [("_id", VStr (uid st))]) (fields st2)) as E'.
  { rewrite E. now destruct (truthy (get (options st) "parent")). }
  split; [|exact E'].
  rewrite E'. apply In_keys_assign. left.
  destruct (truthy (get (options st) "parent")); simpl; auto.
Qed.

(** C8, as the code has it.  The mapping passed to the serializer is the
    internal fields merged with the processed submission: [_id] is always a
    key of it, and every other field of the submission is there with its
    value; when the submission has no [_id] of its own, [_id] is the
    unique identifier of the entry; when it has no [_parent] of its own,
    [_parent] is [options.parent] if that is set (truthy), and is no key
    otherwise. *)
Theorem internal_fields_merged (w : World) (st st2 : Staticman)
  (cfg : SiteConfig) (ev : list event) (ext : obj) :
  well_formed (fields st) = true ->
  prepareEntry w st = (ev, inr (st2, cfg, ext)) ->
  let submission := fields st2 in
  let parent := get (options st) "parent" in
  In "_id" (keys ext)
  /\ (forall k, In k (keys submission) -> k <> "_id" -> k <> "_parent" ->
                get ext k = get submission k)
  /\ (~ In "_id" (keys submission) -> get ext "_id" = VStr (uid st))
  /\ (~ In "_parent" (keys submission) ->
      (truthy parent = true -> get ext "_parent" = parent)
      /\ (truthy parent = false -> ~ In "_parent" (keys ext))).
Proof.
  intros WF P submission parent.
  pose proof (processed_NoDup w st st2 cfg ev ext WF P) as ND.
  destruct (internal_fields_assign w st st2 cfg ev ext P) as [Hid E].
  fold submission in ND, E. fold parent in E.
  split; [exact Hid | split; [|split]].
  - intros k Hk _ _. rewrite E, get_assign by assumption.
    apply existsb_eqb_In in Hk. now rewrite Hk.
  - intros Hn. rewrite E, get_assign by assumption.
    apply existsb_eqb_notIn in Hn. rewrite Hn.
    now destruct (truthy parent).
  - intros Hn. split; intros Ht; rewrite Ht in E; rewrite E.
    + rewrite get_assign by assumption.
      apply existsb_eqb_notIn in Hn. now rewrite Hn.
    + rewrite In_keys_assign. simpl. intuition discriminate.
Qed.

Lemma internal_fields_merged_witness :
  get (applyInternalFields
         (Sample.request Sample.site [("name", VStr "Bob")]
            [("parent", VStr "123")])
         [("name", VStr "Bob")]) "_id" = VStr "abc".
Proof.
  refine (proj1 (proj2 (proj2 (internal_fields_merged Sample.world
                                 (Sample.request Sample.site
                                    [("name", VStr "Bob")]
                                    [("parent", VStr "123")])
                                 _ _ _ _ eq_refl eq_refl))) _).
  simpl. intuition discriminate.
Defined.

(** C8 as stated fails: a submitted [_id] with an empty value passes the
    validation and takes the place of the generated identifier. *)
Lemma internal_id_overridden :
  exists st2 ext,
    prepareEntry Sample.world
      (Sample.request Sample.site Sample.fields_with_id [])
    = ([], inr (st2, Sample.site, ext))
    /\ get ext "_id"
       <> VStr (uid (Sample.request Sample.site Sample.fields_with_id [])).
Proof.
  eexists. eexists. split; [reflexivity|]. simpl. discriminate.
Qed.

(** C10, as the code has it.  The fields of a success result are the
    submission after trimming, generated fields and transforms, and
    nothing else: the internal fields are put in another mapping, the one
    handed to the serializer, so that [_id] (always a key there) and
    [_parent] are keys of the returned fields only when the processed
    submission has them as keys of its own; and in the [frontmatter]
    format the content field, deleted from the serializer's mapping, is
    still a key of the returned fields when the processed submission has
    it. *)
Theorem result_fields_frame (w : World) (st : Staticman) (ev : list event)
  (res : entry_result) :
  well_formed (fields st) = true ->
  processEntry w st = (ev, inr res) ->
  exists st1 ev1 st2 ev2 cfg generated ext,
    getSiteConfig w st false = (ev1, inr (st1, cfg))
    /\ applyGeneratedFields w st1 cfg (trim_all (fields st)) = inr generated
    /\ prepareEntry w st = (ev2, inr (st2, cfg, ext))
    /\ result_fields res = applyTransforms w cfg generated
    /\ In "_id" (keys ext)
    /\ (forall k, k = "_id" \/ k = "_parent" ->
                  ~ In k (keys (applyTransforms w cfg generated)) ->
                  ~ In k (keys (result_fields res)))
    /\ (forall cf, toLowerCase (format cfg) = "frontmatter" ->
                   contentField cfg = Some cf ->
                   In cf (keys (applyTransforms w cfg generated)) ->
                   In cf (keys (result_fields res))
                   /\ ~ In cf (keys (snd (createFile w cfg ext)))).
Proof.
  intros WF P. unfold processEntry in P.
  destruct (prepareEntry w st) as [ev2 [e|[[st2 cfg] ext]]] eqn:Q;
    [discriminate|].
  destruct (createFile w cfg ext) as [[e|data] ext'] eqn:C; [discriminate|].
  destruct (dispatch w st2 cfg data) as [ev3 [e|v]]; [discriminate|].
  injection P as _ <-. cbn [result_fields].
  destruct (internal_fields_assign w st st2 cfg ev2 ext Q) as [Hid _].
  destruct (prepareEntry_inr w st st2 cfg ev2 ext Q)
    as (st1 & ev1 & g & G & _ & A & F & _).
  destruct (validate_loop_result cfg (fields st) WF) as [_ T].
  rewrite T in A.
  exists st1, ev1, st2, ev2, cfg, g, ext. rewrite F.
  split; [exact G|]. split; [exact A|]. split; [reflexivity|].
  split; [reflexivity|]. split; [exact Hid|]. split; [tauto|].
  intros cf Hf Hc Hin. split; [exact Hin|].
  unfold createFile. rewrite Hf, Hc. simpl.
  destruct (cf =? "") eqn:Ecf; simpl; [|apply keys_delete].
  exfalso. unfold createFile in C. rewrite Hf, Hc in C. simpl in C.
  rewrite Ecf in C. discriminate.
Qed.

Lemma result_fields_frame_witness :
  let st := Sample.request Sample.frontmatter_site Sample.hello_fields [] in
  let res := mkResult Sample.hello_fields (VBool false) in
  snd (processEntry Sample.world st) = inr res
  /\ exists cfg generated,
       result_fields res = applyTransforms Sample.world cfg generated.
Proof.
  split; [reflexivity|].
  destruct (result_fields_frame Sample.world
              (Sample.request Sample.frontmatter_site Sample.hello_fields [])
              (fst (processEntry Sample.world
                      (Sample.request Sample.frontmatter_site
                         Sample.hello_fields [])))
              (mkResult Sample.hello_fields (VBool false))
              eq_refl eq_refl)
    as (st1 & ev1 & st2 & ev2 & cfg & g & ext & _ & _ & _ & R & _).
  exists cfg, g. exact R.
Defined.

(** C10 as stated fails: a submitted [_parent] with an empty value passes
    the validation and is a key of the returned fields. *)
Lemma reserved_key_returned :
  exists res,
    snd (processEntry Sample.world
           (Sample.request Sample.site Sample.fields_with_parent []))
    = inr res
    /\ In "_parent" (keys (result_fields res)).
Proof.
  eexists. split; [reflexivity|]. simpl. tauto.
Qed.

(** ** Placeholder resolution *)

Section StringFacts.

Lemma append_assoc (a b c : string) : (a ++ b) ++ c = a ++ b ++ c.
Proof. induction a as [|x a IH]; simpl; [reflexivity | now rewrite IH]. Qed.

Lemma append_nil_r (a : string) : a ++ "" = a.
Proof. induction a as [|x a IH]; simpl; [reflexivity | now rewrite IH]. Qed.

Lemma length_append (a b : string) :
  String.length (a ++ b) = String.length a + String.length b.
Proof. induction a as [|x a IH]; simpl; [reflexivity | now rewrite IH]. Qed.

Lemma no_char_append (c : ascii) (a b : string) :
  no_char c (a ++ b) = no_char c a && no_char c b.
Proof.
  induction a as [|x a IH]; simpl; [reflexivity|].
  now rewrite IH, andb_assoc.
Qed.

Lemma is_name_cons (c : ascii) (b : string) :
  is_name (String c b) = true ->
  (c =? "}")%char = false /\ is_line_terminator c = false
  /\ is_name b = true.
Proof.
  unfold is_name. simpl. rewrite !andb_true_iff, !negb_true_iff.
  tauto.
Qed.

Lemma match_body_name (b rest : string) :
  is_name b = true -> match_body (b ++ String "}" rest) = Some (b, rest).
Proof.
  induction b as [|c b IH]; intros H; simpl; [reflexivity|].
  apply is_name_cons in H as (H1 & H2 & H3).
  now rewrite H1, H2, IH.
Qed.

Lemma matches_skip (x s : string) :
  matches_from (String.length x) (x ++ s) = matches_from 0 s.
Proof. induction x as [|c x IH]; simpl; [now destruct s | exact IH]. Qed.

Lemma matches_lit (s rest : string) :
  no_char "{" s = true -> matches_from 0 (s ++ rest) = matches_from 0 rest.
Proof.
  induction s as [|c s IH]; simpl; [reflexivity|].
  intros H. apply andb_true_iff in H as [H1 H2].
  apply negb_true_iff in H1. rewrite H1. now apply IH.
Qed.

Lemma matches_none (s : string) :
  no_char "{" s = true -> matches_from 0 s = [].
Proof.
  intros H. rewrite <- (append_nil_r s). now rewrite matches_lit.
Qed.

Lemma matches_token (b rest : string) :
  is_name b = true ->
  matches_from 0 (token b ++ rest) = token b :: matches_from 0 rest.
Proof.
  intros H. unfold token. rewrite !append_assoc. simpl.
  rewrite (match_body_name b rest H). f_equal.
  change (String "}" rest) with ("}" ++ rest).
  rewrite <- (append_assoc b "}" rest).
  replace (S (String.length b)) with (String.length (b ++ "}"))
    by (rewrite length_append; simpl; lia).
  apply matches_skip.
Qed.

Lemma getSubstitution_plain (m before after v : string) :
  no_char "$" v = true -> getSubstitution m before after v = v.
Proof.
  induction v as [|c v IH]; simpl; [reflexivity|].
  intros H. apply andb_true_iff in H as [H1 H2].
  apply negb_true_iff in H1. rewrite H1. now rewrite IH.
Qed.

Lemma startsWith_append (t rest : string) : startsWith t (t ++ rest) = true.
Proof.
  induction t as [|c t IH]; simpl; [reflexivity|].
  now rewrite Ascii.eqb_refl.
Qed.

Lemma drop_append (t rest : string) : drop (String.length t) (t ++ rest) = rest.
Proof. induction t as [|c t IH]; simpl; [reflexivity | exact IH]. Qed.

Lemma replace_skip (t v x rest : string) :
  forall pre,
    replace_from (String.length x) t v pre (x ++ rest)
    = replace_from 0 t v (pre ++ x) rest.
Proof.
  induction x as [|c x IH]; intros pre; simpl.
  - rewrite append_nil_r. now destruct rest.
  - rewrite IH, append_assoc. reflexivity.
Qed.

Lemma startsWith_token_other (b s : string) (c : ascii) :
  (c =? "{")%char = false -> startsWith (token b) (String c s) = false.
Proof.
  intros H. unfold token.
  change ("{" ++ b ++ "}") with (String "{" (b ++ "}")).
  cbn [startsWith]. now rewrite (Ascii.eqb_sym "{" c), H.
Qed.

Lemma replace_from_cons (t v pre r : string) (c : ascii) :
  replace_from 0 t v pre (String c r)
  = if startsWith t (String c r)
    then getSubstitution t pre (drop (String.length t) (String c r)) v
         ++ replace_from (String.length t - 1) t v (pre ++ String c "") r
    else String c (replace_from 0 t v (pre ++ String c "") r).
Proof. reflexivity. Qed.

Lemma replace_lit (b v s rest : string) :
  no_char "{" s = true ->
  forall pre,
    replace_from 0 (token b) v pre (s ++ rest)
    = s ++ replace_from 0 (token b) v (pre ++ s) rest.
Proof.
  induction s as [|c s IH]; intros H pre.
  - now rewrite append_nil_r.
  - cbn [no_char] in H. apply andb_true_iff in H as [H1 H2].
    apply negb_true_iff in H1. cbn [append].
    rewrite replace_from_cons, (startsWith_token_other b _ c H1).
    rewrite IH by assumption. now rewrite append_assoc.
Qed.

Lemma replace_none (b v s pre : string) :
  no_char "{" s = true -> replace_from 0 (token b) v pre s = s.
Proof.
  intros H. rewrite <- (append_nil_r s) at 1.
  rewrite replace_lit by assumption. simpl. apply append_nil_r.
Qed.

Lemma replace_token_same (b v rest pre : string) :
  replace_from 0 (token b) v pre (token b ++ rest)
  = getSubstitution (token b) pre rest v
    ++ replace_from 0 (token b) v (pre ++ token b) rest.
Proof.
  pose proof (startsWith_append (token b) rest) as S.
  pose proof (drop_append (token b) rest) as D.
  assert (token b = String "{" (b ++ "}")) as T by reflexivity.
  rewrite T in *. cbn [append] in *.
  rewrite replace_from_cons, S, D. f_equal.
  cbn [String.length]. rewrite Nat.sub_succ, Nat.sub_0_r.
  rewrite replace_skip. now rewrite append_assoc.
Qed.

End StringFacts.

Section TemplateFacts.

Lemma slice_token (b : string) : slice_1_m1 (token b) = b.
Proof. unfold token. simpl. apply remove_last_app. Qed.

Lemma startsWith_names (b b' rest : string) :
  no_char "}" b = true -> no_char "}" b' = true ->
  startsWith (b ++ "}") (b' ++ String "}" rest) = true -> b = b'.
Proof.
  revert b'. induction b as [|a b IH]; intros [|c b'] H H';
    cbn [append startsWith].
  - reflexivity.
  - cbn [no_char] in H'. apply andb_true_iff in H' as [H1 _].
    apply negb_true_iff in H1. rewrite (Ascii.eqb_sym "}" c), H1.
    discriminate.
  - cbn [no_char] in H. apply andb_true_iff in H as [H1 _].
    apply negb_true_iff in H1. rewrite H1. discriminate.
  - cbn [no_char] in H, H'. apply andb_true_iff in H as [_ H].
    apply andb_true_iff in H' as [_ H'].
    intros E. apply andb_true_iff in E as [E1 E2].
    apply Ascii.eqb_eq in E1. subst c. f_equal. now apply IH.
Qed.

Lemma plain_name_parts (b : string) :
  plain_name b = true ->
  is_name b = true /\ no_char "}" b = true /\ no_char "{" b = true.
Proof.
  unfold plain_name, is_name. rewrite !andb_true_iff. tauto.
Qed.

Lemma replace_token_other (b b' v rest pre : string) :
  plain_name b = true -> plain_name b' = true -> b' <> b ->
  replace_from 0 (token b) v pre (token b' ++ rest)
  = token b' ++ replace_from 0 (token b) v (pre ++ token b') rest.
Proof.
  intros Hb Hb' Hne.
  apply plain_name_parts in Hb as (_ & Hb & _).
  apply plain_name_parts in Hb' as (_ & Hc & Ho).
  assert (token b' ++ rest = String "{" ((b' ++ "}") ++ rest)) as ->
    by reflexivity.
  rewrite replace_from_cons.
  assert (startsWith (token b) (String "{" ((b' ++ "}") ++ rest)) = false)
    as ->.
  { apply not_true_is_false. intros E. apply Hne. symmetry.
    unfold token in E.
    change ("{" ++ b ++ "}") with (String "{" (b ++ "}")) in E.
    cbn [startsWith] in E. apply andb_true_iff in E as [_ E].
    rewrite append_assoc in E. now apply (startsWith_names b b' rest). }
  rewrite replace_lit
    by (rewrite no_char_append, Ho; reflexivity).
  unfold token. simpl. now rewrite !append_assoc.
Qed.

Lemma replace_render (b v : string) (segs : list segment) :
  plain_name b = true -> no_char "$" v = true ->
  forallb segment_ok segs = true ->
  forall pre,
    replace_from 0 (token b) v pre (render segs)
    = render (map (subst_segment b v) segs).
Proof.
  intros Hb Hv. induction segs as [|[s|b'] segs IH]; intros H pre;
    cbn [forallb segment_ok] in H; try apply andb_true_iff in H as [H1 H2];
    cbn [render map subst_segment].
  - reflexivity.
  - rewrite replace_lit by assumption. now rewrite IH.
  - destruct (b' =? b) eqn:E.
    + apply String.eqb_eq in E. subst b'. rewrite replace_token_same.
      rewrite getSubstitution_plain by assumption.
      cbn [render]. now rewrite IH.
    + apply String.eqb_neq in E. rewrite replace_token_other by assumption.
      cbn [render]. now rewrite IH.
Qed.

Lemma resolved_subst (text : string -> string) (b : string)
  (segs : list segment) :
  resolved text (map (subst_segment b (text b)) segs) = resolved text segs.
Proof.
  induction segs as [|[s|b'] segs IH]; cbn [map subst_segment resolved].
  - reflexivity.
  - now rewrite IH.
  - destruct (b' =? b) eqn:E; cbn [resolved]; rewrite IH; [|reflexivity].
    apply String.eqb_eq in E. now subst.
Qed.

Lemma render_no_token (text : string -> string) (segs : list segment) :
  (forall b, ~ In (Tok b) segs) -> render segs = resolved text segs.
Proof.
  induction segs as [|[s|b] segs IH]; intros H; cbn [render resolved].
  - reflexivity.
  - f_equal. apply IH. intros b Hin. apply (H b). now right.
  - exfalso. apply (H b). now left.
Qed.

Lemma In_Tok_names (b : string) (segs : list segment) :
  In (Tok b) segs -> In b (names segs).
Proof.
  intros H. unfold names. apply in_flat_map. exists (Tok b).
  split; [assumption | now left].
Qed.

End TemplateFacts.

Section ResolveFacts.

Variable w : World.
Variable st : Staticman.
Variable ctx : value.

Local Abbreviation text := (placeholder_text w st ctx).
Local Abbreviation pass_text := (pass (placeholder_text w st ctx)).

Lemma resolvePlaceholders_fold (subject : string) :
  resolvePlaceholders w st subject ctx
  = fold_left (resolve_step w st ctx) (regex_matches subject) subject.
Proof.
  unfold resolvePlaceholders. now destruct (regex_matches subject).
Qed.

Lemma regex_matches_render (segs : list segment) :
  forallb segment_ok segs = true -> regex_matches (render segs) = tokens segs.
Proof.
  unfold regex_matches, tokens.
  induction segs as [|[s|b] segs IH]; intros H; cbn [forallb segment_ok] in H;
    try apply andb_true_iff in H as [H1 H2]; cbn [render names flat_map].
  - reflexivity.
  - rewrite matches_lit by assumption. now apply IH.
  - apply plain_name_parts in H1 as (H1 & _).
    rewrite matches_token by assumption. simpl. f_equal. now apply IH.
Qed.

Lemma segment_ok_subst (b v : string) (segs : list segment) :
  no_char "{" v = true -> forallb segment_ok segs = true ->
  forallb segment_ok (map (subst_segment b v) segs) = true.
Proof.
  intros Hv. induction segs as [|[s|b'] segs IH]; intros H;
    cbn [forallb segment_ok] in H; try apply andb_true_iff in H as [H1 H2];
    cbn [map subst_segment forallb]; [reflexivity | |].
  - cbn [segment_ok]. rewrite H1. now apply IH.
  - destruct (b' =? b); cbn [segment_ok]; rewrite ?Hv, ?H1; now apply IH.
Qed.

Lemma fold_resolve (ns : list string) :
  forall segs,
    forallb (fun b => plain_name b && plain_text (text b)) ns = true ->
    forallb segment_ok segs = true ->
    fold_left (resolve_step w st ctx) (map token ns) (render segs)
    = render (fold_left pass_text ns segs).
Proof.
  induction ns as [|b ns IH]; intros segs Hn Hs; [reflexivity|].
  cbn [forallb] in Hn. apply andb_true_iff in Hn as [Hb Hn].
  apply andb_true_iff in Hb as [Hb Ht].
  unfold plain_text in Ht. apply andb_true_iff in Ht as [Ht1 Ht2].
  cbn [map fold_left]. unfold resolve_step at 2.
  rewrite slice_token. fold (text b). unfold replace_all.
  rewrite replace_render by assumption.
  apply IH; [assumption|]. now apply segment_ok_subst.
Qed.

Lemma fold_pass_tokens (ns : list string) :
  forall segs b,
    In (Tok b) (fold_left pass_text ns segs) -> In (Tok b) segs /\ ~ In b ns.
Proof.
  induction ns as [|a ns IH]; intros segs b H; cbn [fold_left] in H.
  - simpl. tauto.
  - apply IH in H as [H Hn]. unfold pass in H.
    apply in_map_iff in H as [[s|b'] [E Hin]]; cbn [subst_segment] in E;
      [discriminate|].
    destruct (b' =? a) eqn:Eb; [discriminate|].
    injection E as ->. apply String.eqb_neq in Eb.
    split; [assumption|]. simpl. intuition congruence.
Qed.

Lemma resolved_fold (ns : list string) :
  forall segs,
    resolved text (fold_left pass_text ns segs) = resolved text segs.
Proof.
  induction ns as [|a ns IH]; intros segs; cbn [fold_left]; [reflexivity|].
  rewrite IH. unfold pass. apply resolved_subst.
Qed.

Lemma plain_segments (segs : list segment) :
  forallb (plain_segment text) segs = true ->
  forallb segment_ok segs = true
  /\ forallb (fun b => plain_name b && plain_text (text b)) (names segs) = true.
Proof.
  induction segs as [|[s|b] segs IH]; intros H;
    cbn [forallb plain_segment] in H;
    try apply andb_true_iff in H as [H1 H2];
    cbn [forallb segment_ok names flat_map app]; [tauto | |].
  - rewrite H1. now apply IH.
  - rewrite H1. apply andb_true_iff in H1 as [-> _]. now apply IH.
Qed.

(** A template whose literal parts have no opening brace, whose names have
    no brace, and whose replacement texts have neither an opening brace nor
    a dollar, resolves to itself with every placeholder replaced. *)
Lemma resolve_render (segs : list segment) :
  forallb (plain_segment text) segs = true ->
  resolvePlaceholders w st (render segs) ctx = resolved text segs.
Proof.
  intros H. apply plain_segments in H as [Hs Hn].
  rewrite resolvePlaceholders_fold, regex_matches_render by assumption.
  unfold tokens. rewrite fold_resolve by assumption.
  rewrite <- (resolved_fold (names segs) segs).
  apply render_no_token. intros b Hb.
  apply fold_pass_tokens in Hb as [Hin Hno].
  apply Hno. now apply In_Tok_names.
Qed.

(** A template with one placeholder: the replacement text goes in as the
    substitution of [String.prototype.replace] gives it, whatever it
    contains. *)
Lemma resolve_single (pre b post : string) :
  no_char "{" pre = true -> is_name b = true -> no_char "{" post = true ->
  resolvePlaceholders w st (pre ++ token b ++ post) ctx
  = pre ++ getSubstitution (token b) pre post (text b) ++ post.
Proof.
  intros Hpre Hb Hpost. rewrite resolvePlaceholders_fold.
  unfold regex_matches.
  rewrite matches_lit, matches_token, matches_none by assumption.
  cbn [fold_left]. unfold resolve_step. rewrite slice_token. fold (text b).
  unfold replace_all. rewrite replace_lit by assumption.
  rewrite replace_token_same. now rewrite replace_none.
Qed.

End ResolveFacts.

(** C2, as the code has it.  A placeholder named [@timestamp] stands for
    the current time in milliseconds, one named [@id] for the unique
    identifier, any other for the value found in the context along its
    dotted path, or the empty string when that value is falsy.  A template
    without a match of the pattern, such as one without opening brace, is
    returned as it is.  In a template with one placeholder and no opening
    brace outside it, the placeholder is replaced by its text under the
    replacement patterns of [String.prototype.replace], hence by the text
    as it is when the text has no dollar, whatever placeholders the text
    contains.  In a template made of literal parts without opening brace
    and of placeholders whose names have no brace, when no replacement
    text has an opening brace or a dollar, every occurrence of every
    placeholder is replaced by its text. *)
Theorem resolvePlaceholders_correct (w : World) (st : Staticman)
  (ctx : value) :
  let text := placeholder_text w st ctx in
  (newText w st ctx "@timestamp" = VNum (now w)
   /\ newText w st ctx "@id" = VStr (uid st)
   /\ forall name, name <> "@timestamp" -> name <> "@id" ->
                   newText w st ctx name
                   = if truthy (objectPath_get ctx name)
                     then objectPath_get ctx name else VStr "")
  /\ (forall subject,
        regex_matches subject = [] \/ no_char "{" subject = true ->
        resolvePlaceholders w st subject ctx = subject)
  /\ (forall pre b post,
        no_char "{" pre = true -> is_name b = true ->
        no_char "{" post = true ->
        resolvePlaceholders w st (pre ++ token b ++ post) ctx
        = pre ++ getSubstitution (token b) pre post (text b) ++ post
        /\ (no_char "$" (text b) = true ->
            resolvePlaceholders w st (pre ++ token b ++ post) ctx
            = pre ++ text b ++ post))
  /\ (forall segs,
        forallb (plain_segment text) segs = true ->
        resolvePlaceholders w st (render segs) ctx = resolved text segs).
Proof.
  intros text. split; [|split; [|split]].
  - split; [reflexivity|]. split; [reflexivity|].
    intros name H1 H2. unfold newText.
    apply String.eqb_neq in H1, H2. now rewrite H1, H2.
  - intros subject [H | H].
    + unfold resolvePlaceholders. now rewrite H.
    + unfold resolvePlaceholders, regex_matches.
      now rewrite matches_none.
  - intros pre b post Hpre Hb Hpost.
    rewrite resolve_single by assumption. fold (text b).
    split; [reflexivity|]. intros Hd. now rewrite getSubstitution_plain.
  - intros segs H. now apply resolve_render.
Qed.

Lemma resolvePlaceholders_correct_witness :
  resolvePlaceholders Sample.world
    (Sample.request Sample.site [] [("parent", VStr "123")])
    (render Sample.sample_template)
    (context (Sample.request Sample.site [] [("parent", VStr "123")]) [])
  = "posts/123/abc-abc".
Proof.
  exact (proj2 (proj2 (proj2 (resolvePlaceholders_correct Sample.world
                                (Sample.request Sample.site []
                                   [("parent", VStr "123")])
                                (context (Sample.request Sample.site []
                                            [("parent", VStr "123")]) []))))
           Sample.sample_template eq_refl).
Defined.

(** C2 as stated fails: the value of [fields.a] is the text of the
    placeholder that follows in the template, and the pass of that
    placeholder replaces it too. *)
Lemma replacement_rescanned :
  objectPath_get Sample.nested_context "fields.a" = VStr "{fields.b}"
  /\ objectPath_get Sample.nested_context "fields.b" = VStr "X"
  /\ resolvePlaceholders Sample.world (Sample.request Sample.site [] [])
       "{fields.a} {fields.b}" Sample.nested_context = "X X"
  /\ resolvePlaceholders Sample.world (Sample.request Sample.site [] [])
       "{fields.a} {fields.b}" Sample.nested_context <> "{fields.b} X".
Proof.
  repeat split; try reflexivity. discriminate.
Qed.

(** An opening brace outside the placeholders changes what the pattern
    finds: in [{x}{{x}] the second match is [{{x}], whose name is [{x], and
    the pass of the first one has already replaced the [{x}] inside it. *)
Example brace_in_name :
  regex_matches "{x}{{x}" = ["{x}"; "{{x}"]
  /\ resolvePlaceholders Sample.world (Sample.request Sample.site [] [])
       "{x}{{x}" (VObj [("x", VStr "v")]) = "v{v".
Proof. split; reflexivity. Qed.

(** * Further properties *)

(** ** Validation and trimming *)

Lemma filter_nil_false {A : Type} (f : A -> bool) (l : list A) (x : A) :
  filter f l = [] -> In x l -> f x = false.
Proof.
  intros E Hin. destruct (f x) eqn:F; [|reflexivity].
  assert (In x (filter f l)) as H by (apply filter_In; split; assumption).
  rewrite E in H. contradiction.
Qed.


Lemma keys_trim_all (o : obj) : keys (trim_all o) = keys o.
Proof.
  unfold keys, trim_all. rewrite map_map. reflexivity.
Qed.



Lemma trimEnd_idempotent (s : string) : trimEnd (trimEnd s) = trimEnd s.
Proof.
  induction s as [|c r IH]; [reflexivity|].
  rewrite trimEnd_cons. destruct (trimEnd r) as [|d r'] eqn:E.
  - destruct (is_white_space c) eqn:W; [reflexivity|].
    rewrite trimEnd_cons. simpl. now rewrite W.
  - rewrite (trimEnd_cons c (String d r')), IH. reflexivity.
Qed.

Lemma trimStart_trimEnd (s : string) :
  match s with
  | "" => True
  | String c _ => is_white_space c = false
  end ->
  trimStart (trimEnd s) = trimEnd s.
Proof.
  destruct s as [|c r]; [reflexivity|]. intros W.
  rewrite trimEnd_cons.
  destruct (trimEnd r); rewrite ?W; simpl; rewrite ?W; reflexivity.
Qed.

Lemma trim_idempotent (s : string) : trim (trim s) = trim s.
Proof.
  unfold trim. rewrite (trimStart_trimEnd _ (trimStart_head s)).
  apply trimEnd_idempotent.
Qed.

(** X2.  The trimming of the validation.  The fields once trimmed are
    trimmed for good: the first loop of the validation leaves them as
    they are; and a trimmed string value neither begins nor ends with a
    white space character. *)
Theorem trimmedFields_stable (cfg : SiteConfig) (fields : obj) :
  well_formed fields = true ->
  trimmedFields cfg (trimmedFields cfg fields) = trimmedFields cfg fields
  /\ (forall f s, get (trimmedFields cfg fields) f = VStr s ->
                  match s with
                  | "" => True
                  | String c _ => is_white_space c = false
                  end
                  /\ match last_char s with
                     | Some c => is_white_space c = false
                     | None => True
                     end).
Proof.
  intros WF. destruct (validate_loop_result cfg fields WF) as [_ ET].
  assert (well_formed (trim_all fields) = true) as WF'
    by (unfold well_formed; now rewrite keys_trim_all).
  destruct (validate_loop_result cfg (trim_all fields) WF') as [_ ET'].
  rewrite ET, ET'. split.
  - unfold trim_all. rewrite map_map. apply map_ext. intros [k v]. simpl.
    destruct v; simpl; try reflexivity. now rewrite trim_idempotent.
  - intros f s G. rewrite get_trim_all in G.
    destruct (get fields f); simpl in G; try discriminate.
    injection G as <-. split; [apply trim_head | apply trimEnd_last].
Qed.

Lemma trimmedFields_stable_witness :
  trimmedFields Sample.site (trimmedFields Sample.site Sample.good_fields)
  = trimmedFields Sample.site Sample.good_fields.
Proof.
  exact (proj1 (trimmedFields_stable Sample.site Sample.good_fields eq_refl)).
Defined.

(** ** Transforms, generated fields, internal fields *)

Section FieldFacts.

Variable w : World.









End FieldFacts.


Lemma generate_step_inr (w : World) (st : Staticman) (gen d d' : obj)
  (f : string) :
  generate_step w st gen (inr d) f = inr d' ->
  (forall k, k <> f -> get d' k = get d k)
  /\ (forall k, In k (keys d) -> In k (keys d'))
  /\ (is_literal (get gen f) = true -> get d' f = get gen f)
  /\ get gen f <> VNull.
Proof.
  assert (forall v, (forall k, k <> f -> get (set f v d) k = get d k)
                    /\ (forall k, In k (keys d) -> In k (keys (set f v d)))
                    /\ get (set f v d) f = v) as S.
  { intros v. split; [|split].
    - intros k Hk. rewrite get_set. apply String.eqb_neq in Hk.
      rewrite String.eqb_sym in Hk. now rewrite Hk.
    - intros k Hk. apply In_keys_set. now right.
    - rewrite get_set. now rewrite String.eqb_refl. }
  unfold generate_step.
  destruct (get gen f) eqn:G; try discriminate;
    try (intros [= <-]; destruct (S (get gen f)) as (S1 & S2 & S3);
         rewrite G in *; repeat split; auto; discriminate).
  destruct (strict_eq_str _ "date").
  - intros [= <-]. destruct (S (createDate w
      (if truthy (prop (VObj o) "options") then prop (VObj o) "options"
       else VObj []))) as (S1 & S2 & _).
    repeat split; auto; discriminate.
  - destruct (strict_eq_str _ "slugify").
    + destruct (get (options st) "field") eqn:F; intros [= <-];
        try (repeat split; auto; discriminate).
      destruct (S (VStr (toLowerCase (slugify w (member d s)))))
        as (S1 & S2 & _).
      repeat split; auto; discriminate.
    + intros [= <-]. repeat split; auto; discriminate.
Qed.

Lemma generate_fold_inl (w : World) (st : Staticman) (gen : obj)
  (ks : list string) (e : error) :
  fold_left (generate_step w st gen) ks (inl e) = inl e.
Proof. induction ks as [|f ks IH]; simpl; [reflexivity | exact IH]. Qed.

Lemma generate_fold (w : World) (st : Staticman) (gen : obj)
  (ks : list string) :
  forall acc d',
    fold_left (generate_step w st gen) ks acc = inr d' ->
    exists d, acc = inr d
              /\ (forall k, ~ In k ks -> get d' k = get d k)
              /\ (forall k, In k (keys d) -> In k (keys d'))
              /\ (forall k, In k ks -> get gen k <> VNull).
Proof.
  induction ks as [|f ks IH]; intros acc d' H; simpl in H.
  - exists d'. subst acc. repeat split; auto.
  - destruct acc as [e|d];
      [simpl in H; rewrite generate_fold_inl in H; discriminate|].
    apply IH in H as (d1 & E & H1 & H2 & H3).
    apply generate_step_inr in E as (E1 & E2 & _ & E4).
    exists d. split; [reflexivity|]. split; [|split].
    + intros k Hn. rewrite H1 by (intros Hin; apply Hn; now right).
      apply E1. intros ->. apply Hn. now left.
    + intros k Hk. auto.
    + intros k [<- | Hin]; auto.
Qed.

Lemma generate_fold_literal (w : World) (st : Staticman) (gen : obj)
  (ks : list string) (k : string) :
  forall d d',
    NoDup ks -> In k ks -> is_literal (get gen k) = true ->
    fold_left (generate_step w st gen) ks (inr d) = inr d' ->
    get d' k = get gen k.
Proof.
  induction ks as [|f ks IH]; intros d d' ND Hin L H; [contradiction|].
  inversion ND as [|? ? Hn ND']; subst. simpl in H.
  destruct (generate_fold w st gen ks _ d' H) as (d1 & E & H1 & _).
  rewrite E in H. destruct Hin as [-> | Hin].
  - rewrite H1 by assumption.
    now apply (generate_step_inr w st gen d d1 k E).
  - now apply (IH d1 d').
Qed.

(** X4.  Generated fields only add.  When [_applyGeneratedFields]
    succeeds, every field of the data is still a key; a field that is no
    key of [generatedFields] keeps its value; a rule that is a literal
    (neither an object nor [null]) gives its field that very value; and no
    rule is [null], a [null] rule making the step throw. *)
Theorem applyGeneratedFields_frame (w : World) (st : Staticman)
  (cfg : SiteConfig) (data data' : obj) :
  applyGeneratedFields w st cfg data = inr data' ->
  (forall k, In k (keys data) -> In k (keys data'))
  /\ (forall k, (forall gen, generatedFields cfg = Some gen ->
                            ~ In k (keys gen)) ->
                get data' k = get data k)
  /\ (forall gen k, generatedFields cfg = Some gen ->
                   well_formed gen = true -> In k (keys gen) ->
                   is_literal (get gen k) = true ->
                   get data' k = get gen k)
  /\ (forall gen k, generatedFields cfg = Some gen -> In k (keys gen) ->
                   get gen k <> VNull).
Proof.
  unfold applyGeneratedFields.
  destruct (generatedFields cfg) as [gen|].
  - intros H.
    destruct (generate_fold w st gen (keys gen) _ data' H)
      as (d & [= <-] & H1 & H2 & H3).
    split; [exact H2|]. split; [|split].
    + intros k Hk. apply H1. now apply Hk.
    + intros gen' k [= <-] WF Hin L.
      apply (generate_fold_literal w st gen (keys gen) k data data');
        try assumption. now apply distinct_NoDup.
    + intros gen' k [= <-]. apply H3.
  - intros [= <-]. repeat split; auto; intros; discriminate.
Qed.

Lemma applyGeneratedFields_frame_witness :
  exists data',
    applyGeneratedFields Sample.world
      (Sample.request Sample.hashing_site Sample.mail_fields [])
      Sample.hashing_site Sample.mail_fields = inr data'
    /\ get data' "kind" = VStr "comment"
    /\ get data' "name" = VStr "Bob".
Proof.
  eexists. split; [reflexivity|].
  pose proof (applyGeneratedFields_frame Sample.world
                (Sample.request Sample.hashing_site Sample.mail_fields [])
                Sample.hashing_site Sample.mail_fields _ eq_refl)
    as (_ & H2 & H3 & _).
  split.
  - exact (H3 _ "kind" eq_refl eq_refl (or_introl eq_refl) eq_refl).
  - rewrite H2; [reflexivity|].
    intros gen [= <-]. simpl. intuition discriminate.
Defined.

Lemma ordered_above_plain (lo : option N) (ks : list string) :
  forallb (fun k => negb (is_index k)) ks = true ->
  ordered_above lo ks = true.
Proof.
  destruct ks as [|k r]; [reflexivity|]. simpl. unfold is_index at 1.
  destruct (array_index k); [discriminate|]. now intros H.
Qed.

(** The keys of the target below the new index, all of them array
    indices, then keys that are none: the new index goes in between. *)
Lemma insert_index_between (i : N) (k : string) (v : value) (a b : obj) :
  Forall (fun kv => exists j, array_index (fst kv) = Some j /\ (j < i)%N) a ->
  forallb (fun k' => negb (is_index k')) (keys b) = true ->
  insert_index i k v (a ++ b)%list = (a ++ (k, v) :: b)%list.
Proof.
  intros Ha Hb. induction a as [|[k2 v2] r IH]; simpl.
  - destruct b as [|[k3 v3] b']; [reflexivity|]. simpl in Hb.
    unfold is_index in Hb. simpl. destruct (array_index k3);
      [discriminate | reflexivity].
  - inversion Ha as [|? ? (j & Ej & Lj) Ha']; subst. simpl in Ej.
    rewrite Ej. apply N.ltb_lt in Lj. rewrite Lj. f_equal. now apply IH.
Qed.

Lemma keys_set_index (i : N) (k : string) (v : value) (t : obj)
  (ka kb : list string) :
  keys t = (ka ++ kb)%list ->
  Forall (fun k' => exists j, array_index k' = Some j /\ (j < i)%N) ka ->
  forallb (fun k' => negb (is_index k')) kb = true ->
  array_index k = Some i ->
  keys (set k v t) = (ka ++ k :: kb)%list.
Proof.
  intros E Ha Hb A.
  assert (~ In k (keys t)) as Hn.
  { rewrite E. intros Hin. apply in_app_or in Hin as [Hin | Hin].
    - rewrite Forall_forall in Ha. destruct (Ha k Hin) as (j & Ej & Lj).
      rewrite A in Ej. injection Ej as <-. lia.
    - rewrite forallb_forall in Hb. apply Hb in Hin.
      unfold is_index in Hin. rewrite A in Hin. discriminate. }
  unfold set. apply lookup_None_keys in Hn. rewrite Hn, A.
  unfold keys in E. apply map_eq_app in E as (a & b & -> & <- & <-).
  rewrite insert_index_between.
  - unfold keys. rewrite !map_app. reflexivity.
  - rewrite Forall_forall in *. intros [k2 v2] Hin. apply Ha.
    now apply (in_map fst) in Hin.
  - exact Hb.
Qed.

(** [Object.assign] onto a target [t] whose keys are array indices up to
    [lo] and then the keys [kb]: the array indices of the source follow
    those of the target, the other new keys come last. *)
Lemma keys_assign_ordered (s : obj) :
  forall (t : obj) (lo : option N) (ka kb : list string),
    NoDup (keys s) -> ordered_above lo (keys s) = true ->
    keys t = (ka ++ kb)%list ->
    Forall (fun k => exists j, array_index k = Some j
                               /\ match lo with
                                  | Some l => (j <= l)%N
                                  | None => False
                                  end) ka ->
    forallb (fun k => negb (is_index k)) kb = true ->
    keys (assign t s)
    = (ka ++ filter is_index (keys s) ++ kb
       ++ filter (fun k => negb (is_index k)
                           && negb (existsb (String.eqb k) kb)) (keys s))%list.
Proof.
  unfold assign.
  induction s as [|[k v] r IH]; intros t lo ka kb ND O E Ha Hb.
  - simpl. now rewrite app_nil_r.
  - inversion ND as [|? ? Hn ND']; subst. cbn [fold_left fst snd].
    change (keys ((k, v) :: r)) with (k :: keys r) in *.
    cbn [ordered_above] in O. cbn [filter].
    destruct (array_index k) as [i|] eqn:A.
    + assert (is_index k = true) as I by (unfold is_index; now rewrite A).
      rewrite I. cbn [negb andb].
      apply andb_true_iff in O as [L O].
      assert (Forall (fun k' => exists j, array_index k' = Some j
                                          /\ (j < i)%N) ka) as Ha'.
      { rewrite Forall_forall in *. intros k' Hin.
        destruct (Ha k' Hin) as (j & Ej & Lj). exists j.
        split; [assumption|]. destruct lo as [l|]; [|contradiction].
        apply N.ltb_lt in L. lia. }
      rewrite (IH _ (Some i) (ka ++ [k])%list kb ND' O).
      * now rewrite <- !app_assoc.
      * rewrite (keys_set_index i k v t ka kb E Ha' Hb A).
        now rewrite <- app_assoc.
      * apply Forall_app. split.
        -- rewrite Forall_forall in *. intros k' Hin.
           destruct (Ha' k' Hin) as (j & Ej & Lj). exists j.
           split; [assumption | lia].
        -- constructor; [|constructor]. exists i. split; [assumption|lia].
      * exact Hb.
    + assert (is_index k = false) as I by (unfold is_index; now rewrite A).
      rewrite I. cbn [negb andb].
      assert (~ In k ka) as Hka.
      { intros Hin. rewrite Forall_forall in Ha.
        destruct (Ha k Hin) as (j & Ej & _). congruence. }
      assert (ordered_above lo (keys r) = true) as O'
        by now apply ordered_above_plain.
      destruct (existsb (String.eqb k) kb) eqn:K; simpl.
      * apply existsb_eqb_In in K.
        rewrite (IH _ lo ka kb ND' O'); try assumption; [reflexivity|].
        rewrite keys_set_present; [assumption|].
        rewrite E. apply in_or_app. now right.
      * apply existsb_eqb_notIn in K.
        rewrite (IH _ lo ka (kb ++ [k])%list ND' O'); try assumption.
        -- rewrite <- !app_assoc. simpl. do 4 f_equal.
           apply filter_ext_in. intros k' Hin. rewrite existsb_app. simpl.
           destruct (k' =? k) eqn:E'; [|now rewrite !orb_false_r].
           apply String.eqb_eq in E'. subst. contradiction.
        -- rewrite keys_set_plain; [|rewrite E|assumption].
           ++ now rewrite E, <- app_assoc.
           ++ intros Hin. apply in_app_or in Hin as [Hin | Hin]; tauto.
        -- rewrite forallb_app, Hb. simpl. unfold is_index.
           now rewrite A.
Qed.

(** X5.  The place of the internal fields.  In the mapping that
    [_applyInternalFields] builds from data in key order, the keys of the
    data that are array indices come first; then [_id], and [_parent]
    when [options.parent] is set; then the other fields of the data in
    their order. *)
Theorem applyInternalFields_keys (st : Staticman) (data : obj) :
  well_formed data = true -> key_order data = true ->
  let internal := if truthy (get (options st) "parent")
                  then ["_id"; "_parent"] else ["_id"] in
  keys (applyInternalFields st data)
  = (filter is_index (keys data) ++ internal
     ++ filter (fun k => negb (is_index k)
                         && negb (existsb (String.eqb k) internal))
          (keys data))%list.
Proof.
  intros WF O. apply distinct_NoDup in WF. cbv zeta.
  unfold applyInternalFields.
  destruct (truthy (get (options st) "parent")).
  - apply (keys_assign_ordered data _ None [] ["_id"; "_parent"]);
      try assumption; try reflexivity. constructor.
  - apply (keys_assign_ordered data _ None [] ["_id"]);
      try assumption; try reflexivity. constructor.
Qed.

Lemma applyInternalFields_keys_witness :
  keys (applyInternalFields
          (Sample.request Sample.site [] [("parent", VStr "123")])
          Sample.numbered_fields)
  = ["1"; "_id"; "_parent"; "name"].
Proof.
  exact (applyInternalFields_keys
           (Sample.request Sample.site [] [("parent", VStr "123")])
           Sample.numbered_fields eq_refl eq_refl).
Defined.

(** ** Serialization and the calls of the pipeline *)



Lemma createFile_inr_extension (w : World) (cfg : SiteConfig) (fields : obj)
  (output : string) :
  fst (createFile w cfg fields) = inr output ->
  exists ext, extension_of (toLowerCase (format cfg)) ext
              /\ In ext ["json"; "yml"; "md"].
Proof.
  unfold createFile, extension_of.
  destruct (toLowerCase (format cfg) =? "json") eqn:J.
  { apply String.eqb_eq in J. exists "json". simpl. auto. }
  destruct (toLowerCase (format cfg) =? "yaml") eqn:Y1.
  { apply String.eqb_eq in Y1. exists "yml". simpl. auto 6. }
  destruct (toLowerCase (format cfg) =? "yml") eqn:Y2.
  { apply String.eqb_eq in Y2. exists "yml". simpl. auto 6. }
  destruct (toLowerCase (format cfg) =? "frontmatter") eqn:F.
  { apply String.eqb_eq in F. exists "md". simpl. auto 6. }
  simpl. discriminate.
Qed.

Lemma getSiteConfig_parameters (w : World) (st st' : Staticman)
  (cfg : SiteConfig) (ev : list event) :
  getSiteConfig w st false = (ev, inr (st', cfg)) ->
  parameters st' = parameters st
  /\ Forall (fun e => exists file, e = EReadFile file) ev.
Proof.
  unfold getSiteConfig. destruct (siteConfig st) as [c|].
  - intros [= <- <- <-]. auto.
  - destruct (configPath st) as [[file p]|]; [|discriminate].
    destruct (readFile w file) as [e|d]; [discriminate|].
    destruct (validateConfig w st (objectPath_get d p)) as [| |st2] eqn:V;
      try discriminate.
    destruct (negb _); [discriminate|]. intros [= <- <- <-].
    apply validateConfig_Valid in V. subst st2.
    split; [reflexivity|].
    constructor; [now exists file | constructor].
Qed.

Lemma checkForSpam_events (w : World) (st : Staticman) (cfg : SiteConfig)
  (f : obj) :
  fst (checkForSpam w st cfg f) = []
  \/ (akismet_enabled cfg = true
      /\ fst (checkForSpam w st cfg f) = [ECheckSpam (spamRequest st cfg f)]).
Proof.
  unfold checkForSpam. destruct (akismet_enabled cfg); simpl; [|now left].
  right. split; [reflexivity|]. now destruct (checkSpam w _).
Qed.

Ltac dispatch_cases :=
  unfold dispatch;
  repeat match goal with
         | |- context [if ?b then _ else _] => destruct b eqn:?
         end;
  simpl.

Ltac in_cases H :=
  repeat (destruct H as [H | H]; try discriminate H); try contradiction.

(** The calls of the last step, one kind after the other. *)
Lemma dispatch_writeFile (w : World) (st : Staticman) (cfg : SiteConfig)
  (data p d m : string) (b : value) :
  In (EWriteFile p d b m) (fst (dispatch w st cfg data)) ->
  moderation cfg = false /\ p = getNewFilePath w st cfg (fields st)
  /\ d = data /\ b = get (parameters st) "branch".
Proof.
  dispatch_cases; intros H; in_cases H; injection H as <- <- <- <-; auto.
Qed.

Lemma dispatch_pullRequest (w : World) (st : Staticman) (cfg : SiteConfig)
  (data p d b m body : string) :
  In (EWriteFileAndSendPR p d b m body) (fst (dispatch w st cfg data)) ->
  moderation cfg = true /\ p = getNewFilePath w st cfg (fields st)
  /\ d = data /\ b = "staticman_" ++ uid st.
Proof.
  dispatch_cases; intros H; in_cases H; injection H as <- <- <- <- <-; auto.
Qed.

Lemma dispatch_set (w : World) (st : Staticman) (cfg : SiteConfig)
  (data : string) (parent addr : value) :
  In (ESubscriptionsSet parent addr) (fst (dispatch w st cfg data)) ->
  notifications_enabled cfg = true /\ parent = get (options st) "parent"
  /\ truthy parent = true /\ truthy addr = true.
Proof.
  dispatch_cases; intros H; in_cases H; injection H as <- <-;
    repeat match goal with
           | E : _ && _ = true |- _ => apply andb_true_iff in E as [? ?]
           end; try discriminate; repeat split; auto.
Qed.

Lemma dispatch_send (w : World) (st : Staticman) (cfg : SiteConfig)
  (data : string) (parent : value) (f o : obj) :
  In (ESubscriptionsSend parent f o) (fst (dispatch w st cfg data)) ->
  notifications_enabled cfg = true /\ moderation cfg = false
  /\ parent = get (options st) "parent" /\ truthy parent = true
  /\ f = fields st /\ o = options st.
Proof.
  dispatch_cases; intros H; in_cases H; injection H as <- <- <-;
    repeat match goal with
           | E : _ && _ = true |- _ => apply andb_true_iff in E as [? ?]
           end; try discriminate; repeat split; auto.
Qed.

Lemma dispatch_other (w : World) (st : Staticman) (cfg : SiteConfig)
  (data : string) (e : event) :
  In e (fst (dispatch w st cfg data)) ->
  match e with
  | EReadFile _ | ECheckSpam _ => False
  | _ => True
  end.
Proof.
  dispatch_cases; intros H; in_cases H; subst e; exact I.
Qed.

Lemma dispatch_shape (w : World) (st : Staticman) (cfg : SiteConfig)
  (data : string) :
  exists pre wr,
    fst (dispatch w st cfg data) = (pre ++ [wr])%list
    /\ existsb is_write pre = false /\ is_write wr = true.
Proof.
  dispatch_cases;
    match goal with
    | |- exists pre wr, [?a; ?b; ?c] = _ /\ _ => exists [a; b], c
    | |- exists pre wr, [?a; ?b] = _ /\ _ => exists [a], b
    | |- exists pre wr, [?a] = _ /\ _ => exists [], a
    end; repeat split; reflexivity.
Qed.

(** The calls of a run: those of the configuration, those of the spam
    check, and, when the serializer has given its text, those of the last
    step. *)
Lemma processEntry_trace (w : World) (st st1 : Staticman) (cfg : SiteConfig)
  (ev1 : list event) :
  getSiteConfig w st false = (ev1, inr (st1, cfg)) ->
  let ev2 := fst (checkForSpam w st1 cfg (fields st1)) in
  (fst (processEntry w st) = (ev1 ++ ev2)%list
   /\ exists e, snd (processEntry w st) = inl e)
  \/ exists st2 ext data,
       parameters st2 = parameters st /\ options st2 = options st
       /\ uid st2 = uid st
       /\ fst (createFile w cfg ext) = inr data
       /\ fst (processEntry w st)
          = (ev1 ++ ev2 ++ fst (dispatch w st2 cfg data))%list.
Proof.
  intros G ev2.
  destruct (getSiteConfig_frame w st st1 cfg ev1 G) as (_ & Fo & Fu).
  destruct (getSiteConfig_parameters w st st1 cfg ev1 G) as (Fp & _).
  unfold processEntry, prepareEntry. rewrite G.
  subst ev2. destruct (checkForSpam w st1 cfg (fields st1)) as [ev2 r2].
  cbn [fst].
  destruct r2 as [e|f]; [left; split; [reflexivity | now exists e]|].
  destruct (validateFields cfg f) as [[errs|] tf];
    [left; split; [reflexivity | eexists; reflexivity]|].
  destruct (applyGeneratedFields w st1 cfg tf) as [e|g];
    [left; split; [reflexivity | now exists e]|].
  destruct (createFile w cfg _) as [[e|data] ext'] eqn:C;
    [left; split; [reflexivity | now exists e]|].
  right.
  exists (set_fields st1 (applyTransforms w cfg g)),
    (applyInternalFields (set_fields st1 (applyTransforms w cfg g))
       (applyTransforms w cfg g)), data.
  split; [exact Fp|]. split; [exact Fo|]. split; [exact Fu|].
  split; [now rewrite C|].
  destruct (dispatch w _ cfg data) as [ev3 r3]. cbn [fst].
  now rewrite <- app_assoc.
Qed.

Lemma getSiteConfig_inl_trace (w : World) (st : Staticman) (ev1 : list event)
  (e : error) :
  getSiteConfig w st false = (ev1, inl e) -> processEntry w st = (ev1, inl e).
Proof.
  intros G. unfold processEntry, prepareEntry. now rewrite G.
Qed.

Lemma getNewFilePath_extension (w : World) (st : Staticman)
  (cfg : SiteConfig) (data : obj) (ext : string) :
  extension_of (toLowerCase (format cfg)) ext -> In ext ["json"; "yml"; "md"] ->
  known_extension (getNewFilePath w st cfg data).
Proof.
  intros E Hin. unfold getNewFilePath.
  rewrite (getExtensionForFormat_spec _ _ E). simpl js_toString.
  match goal with
  | |- known_extension (?p ++ "/" ++ ?n ++ "." ++ ext) =>
      exists (p ++ "/" ++ n), ext
  end.
  split; [|assumption]. now rewrite !append_assoc.
Qed.

(** X7.  Where the entry is written.  In a run whose configuration is
    loaded, a direct file write happens only without moderation and goes
    to the branch of the request; the call that opens a review request
    happens only with moderation and goes to the branch [staticman_]
    followed by the identifier of the entry; in both the path ends with
    [.json], [.yml] or [.md]. *)
Theorem processEntry_writes (w : World) (st st1 : Staticman)
  (cfg : SiteConfig) (ev1 : list event) :
  getSiteConfig w st false = (ev1, inr (st1, cfg)) ->
  (forall p d b m,
     In (EWriteFile p d b m) (fst (processEntry w st)) ->
     moderation cfg = false /\ b = get (parameters st) "branch"
     /\ known_extension p)
  /\ (forall p d b m body,
        In (EWriteFileAndSendPR p d b m body) (fst (processEntry w st)) ->
        moderation cfg = true /\ b = "staticman_" ++ uid st
        /\ known_extension p).
Proof.
  intros G.
  destruct (getSiteConfig_parameters w st st1 cfg ev1 G) as (_ & R).
  assert (forall e, In e (ev1 ++ fst (checkForSpam w st1 cfg (fields st1)))
                    -> is_write e = false) as NW.
  { intros e Hin. apply in_app_or in Hin as [Hin | Hin].
    - rewrite Forall_forall in R. destruct (R e Hin) as [file ->].
      reflexivity.
    - destruct (checkForSpam_events w st1 cfg (fields st1)) as [E | [_ E]];
        rewrite E in Hin; [contradiction|].
      destruct Hin as [<- | []]. reflexivity. }
  destruct (processEntry_trace w st st1 cfg ev1 G)
    as [[T _] | (st2 & ext & data & Fp & Fo & Fu & C & T)]; rewrite T.
  - split; intros; match goal with H : In _ _ |- _ => apply NW in H end;
      discriminate.
  - destruct (createFile_inr_extension w cfg ext data C) as (x & X & Hx).
    split.
    + intros p d b m Hin. rewrite app_assoc in Hin.
      apply in_app_or in Hin as [Hin | Hin];
        [apply NW in Hin; discriminate|].
      apply dispatch_writeFile in Hin as (M & -> & _ & ->).
      rewrite Fp. repeat split; try assumption.
      now apply (getNewFilePath_extension w st2 cfg _ x).
    + intros p d b m body Hin. rewrite app_assoc in Hin.
      apply in_app_or in Hin as [Hin | Hin];
        [apply NW in Hin; discriminate|].
      apply dispatch_pullRequest in Hin as (M & -> & _ & ->).
      rewrite Fu. repeat split; try assumption.
      now apply (getNewFilePath_extension w st2 cfg _ x).
Qed.

Lemma processEntry_writes_witness :
  moderation Sample.site = false
  /\ VStr "master" = get (parameters (Sample.request Sample.site
                                        Sample.good_fields [])) "branch"
  /\ known_extension "posts/abc.json".
Proof.
  refine (proj1 (processEntry_writes Sample.world
                   (Sample.request Sample.site Sample.good_fields [])
                   _ _ _ eq_refl)
            "posts/abc.json" _ _ _ (or_introl eq_refl)).
Defined.

(** X8.  One write, and last.  Whatever the request, the calls that
    [processEntry] makes on its collaborators hold at most one write, and
    nothing is called after it; a run that fails before the last step
    makes none, and a run that succeeds has made one. *)
Theorem processEntry_one_write (w : World) (st : Staticman) :
  exists pre,
    existsb is_write pre = false
    /\ ((fst (processEntry w st) = pre
         /\ exists e, snd (processEntry w st) = inl e)
        \/ exists wr, is_write wr = true
                      /\ fst (processEntry w st) = (pre ++ [wr])%list).
Proof.
  destruct (getSiteConfig w st false) as [ev1 [e | [st1 cfg]]] eqn:G.
  - exists ev1. split.
    + pose proof (getSiteConfig_no_write w st false) as H.
      now rewrite G in H.
    + left. rewrite (getSiteConfig_inl_trace w st ev1 e G). simpl. eauto.
  - assert (existsb is_write
              (ev1 ++ fst (checkForSpam w st1 cfg (fields st1))) = false)
      as NW.
    { rewrite existsb_app.
      pose proof (getSiteConfig_no_write w st false) as H.
      rewrite G in H. simpl in H. rewrite H. simpl.
      destruct (checkForSpam_events w st1 cfg (fields st1)) as [E | [_ E]];
        now rewrite E. }
    destruct (processEntry_trace w st st1 cfg ev1 G)
      as [[T F] | (st2 & ext & data & _ & _ & _ & _ & T)].
    + exists (ev1 ++ fst (checkForSpam w st1 cfg (fields st1)))%list.
      split; [exact NW|]. left. split; assumption.
    + destruct (dispatch_shape w st2 cfg data) as (pre & wr & D & P & W).
      exists (ev1 ++ fst (checkForSpam w st1 cfg (fields st1)) ++ pre)%list.
      split.
      * rewrite app_assoc, existsb_app, NW, P. reflexivity.
      * right. exists wr. split; [exact W|].
        rewrite T, D. now rewrite <- !app_assoc.
Qed.

(** X9.  Who is notified, and when.  In a run whose configuration is
    loaded: the classifier is called only when the spam check is enabled;
    a subscription is recorded only when notifications are enabled, for
    the parent of the options, which is set, and with an address that is
    not empty; and the subscribers are notified at once only when
    notifications are enabled, moderation is off and the parent is set. *)
Theorem processEntry_notifications (w : World) (st st1 : Staticman)
  (cfg : SiteConfig) (ev1 : list event) :
  getSiteConfig w st false = (ev1, inr (st1, cfg)) ->
  (forall req, In (ECheckSpam req) (fst (processEntry w st)) ->
               akismet_enabled cfg = true)
  /\ (forall parent addr,
        In (ESubscriptionsSet parent addr) (fst (processEntry w st)) ->
        notifications_enabled cfg = true
        /\ parent = get (options st) "parent"
        /\ truthy parent = true /\ truthy addr = true)
  /\ (forall parent f o,
        In (ESubscriptionsSend parent f o) (fst (processEntry w st)) ->
        notifications_enabled cfg = true /\ moderation cfg = false
        /\ parent = get (options st) "parent" /\ truthy parent = true
        /\ o = options st).
Proof.
  intros G.
  destruct (getSiteConfig_parameters w st st1 cfg ev1 G) as (_ & R).
  rewrite Forall_forall in R.
  assert (forall e, In e (ev1 ++ fst (checkForSpam w st1 cfg (fields st1)))
                    -> (exists file, e = EReadFile file)
                       \/ (akismet_enabled cfg = true
                           /\ exists req, e = ECheckSpam req)) as PRE.
  { intros e Hin. apply in_app_or in Hin as [Hin | Hin]; [left; auto|].
    destruct (checkForSpam_events w st1 cfg (fields st1)) as [E | [A E]];
      rewrite E in Hin; [contradiction|].
    destruct Hin as [<- | []]. right. split; [exact A | eauto]. }
  assert (forall e, In e (fst (processEntry w st)) ->
                    In e (ev1 ++ fst (checkForSpam w st1 cfg (fields st1)))
                    \/ exists st2 data,
                         options st2 = options st
                         /\ In e (fst (dispatch w st2 cfg data))) as SPLIT.
  { intros e Hin.
    destruct (processEntry_trace w st st1 cfg ev1 G)
      as [[T _] | (st2 & ext & data & _ & Fo & _ & _ & T)];
      rewrite T in Hin; [now left|].
    rewrite app_assoc in Hin. apply in_app_or in Hin as [Hin | Hin];
      [now left | right; eauto]. }
  split; [|split].
  - intros req Hin. apply SPLIT in Hin as [Hin | (st2 & data & _ & Hin)].
    + apply PRE in Hin as [[file E] | [A _]]; [discriminate | exact A].
    + apply dispatch_other in Hin. contradiction.
  - intros parent addr Hin.
    apply SPLIT in Hin as [Hin | (st2 & data & Fo & Hin)].
    + apply PRE in Hin as [[file E] | [_ [req E]]]; discriminate.
    + apply dispatch_set in Hin. now rewrite Fo in Hin.
  - intros parent f o Hin.
    apply SPLIT in Hin as [Hin | (st2 & data & Fo & Hin)].
    + apply PRE in Hin as [[file E] | [_ [req E]]]; discriminate.
    + apply dispatch_send in Hin as (N & M & P & T & _ & O).
      rewrite Fo in P, O. auto.
Qed.

(** X10.  Rejected fields stop the run.  In a run whose configuration is
    loaded and whose spam check lets the fields through, errors of the
    validation are the outcome of the run, and the calls made are those of
    the configuration and of the spam check: nothing is written and nobody
    is notified. *)
Theorem processEntry_field_errors (w : World) (st st1 : Staticman)
  (cfg : SiteConfig) (ev1 : list event) (f : obj)
  (errs : list field_error) :
  getSiteConfig w st false = (ev1, inr (st1, cfg)) ->
  snd (checkForSpam w st1 cfg (fields st1)) = inr f ->
  fst (validateFields cfg (fields st)) = Some errs ->
  processEntry w st
  = ((ev1 ++ fst (checkForSpam w st1 cfg (fields st1)))%list,
     inl (ErrFields errs)).
Proof.
  intros G S V.
  destruct (getSiteConfig_frame w st st1 cfg ev1 G) as (Ff & _).
  unfold processEntry, prepareEntry. rewrite G.
  destruct (checkForSpam w st1 cfg (fields st1)) as [ev2 r2] eqn:C.
  simpl in S. subst r2.
  assert (f = fields st) as ->.
  { unfold checkForSpam in C. destruct (negb (akismet_enabled cfg)).
    - injection C as _ <-. exact Ff.
    - destruct (checkSpam w _) as [err isSpam]. injection C as _ C.
      destruct (truthy err); [discriminate|].
      destruct (truthy isSpam); [discriminate|].
      injection C as <-. exact Ff. }
  destruct (validateFields cfg (fields st)) as [[errs'|] tf];
    simpl in V; [|discriminate].
  now injection V as ->.
Qed.

Lemma processEntry_field_errors_witness :
  processEntry Sample.world (Sample.request Sample.site Sample.blank_fields [])
  = ([], inl (ErrFields
                [mkFieldError "MISSING_REQUIRED_FIELDS" ["name"];
                 mkFieldError "INVALID_FIELDS" ["x"]])).
Proof.
  exact (processEntry_field_errors Sample.world
           (Sample.request Sample.site Sample.blank_fields [])
           _ _ _ _ _ eq_refl eq_refl eq_refl).
Defined.

Lemma processEntry_notifications_witness :
  notifications_enabled Sample.notify_site = true
  /\ moderation Sample.notify_site = false
  /\ VStr "p1" = get Sample.subscribe_options "parent"
  /\ truthy (VStr "p1") = true
  /\ Sample.subscribe_options = Sample.subscribe_options.
Proof.
  refine (proj2 (proj2 (processEntry_notifications Sample.world
                          (Sample.request Sample.notify_site
                             Sample.mail_fields Sample.subscribe_options)
                          _ _ _ eq_refl))
            (VStr "p1") _ _ (or_intror (or_introl eq_refl))).
Defined.

(** ** Loading the configuration *)

(** X11.  What a loaded configuration has gone through.  A configuration
    already loaded is returned without reading anything.  One that
    [getSiteConfig] loads comes from exactly one read, of the file of the
    configuration path; its block is not falsy, lacks none of the required
    fields, has passed the origin check, and its [branch] is the branch of
    the request; it is stored in the instance. *)
Theorem getSiteConfig_loaded (w : World) (st st' : Staticman)
  (cfg : SiteConfig) (ev : list event) :
  getSiteConfig w st false = (ev, inr (st', cfg)) ->
  (forall c, siteConfig st = Some c -> ev = [] /\ st' = st /\ cfg = c)
  /\ (siteConfig st = None ->
      exists file p data,
        configPath st = Some (file, p)
        /\ ev = [EReadFile file]
        /\ readFile w file = inr data
        /\ truthy (objectPath_get data p) = true
        /\ missingConfigFields (objectPath_get data p) = []
        /\ validateConfig w st (objectPath_get data p) = Valid st'
        /\ strict_eq (prop (objectPath_get data p) "branch")
                     (get (parameters st) "branch") = true
        /\ cfg = newSiteConfig w (objectPath_get data p)
        /\ siteConfig st' = Some cfg).
Proof.
  unfold getSiteConfig. destruct (siteConfig st) as [c|].
  - intros [= <- <- <-]. split; [|discriminate].
    now intros c' [= <-].
  - destruct (configPath st) as [[file p]|]; [|discriminate].
    destruct (readFile w file) as [e|d] eqn:R; [discriminate|].
    destruct (validateConfig w st (objectPath_get d p)) as [| |st2] eqn:V;
      try discriminate.
    destruct (strict_eq _ _) eqn:B; simpl; [|discriminate].
    intros [= <- <- <-]. split; [intros c; discriminate|]. intros _.
    exists file, p, d. pose proof V as V0. pose proof V as V'.
    apply validateConfig_Valid in V'.
    unfold validateConfig in V.
    destruct (truthy (objectPath_get d p)) eqn:T; [|discriminate].
    simpl in V.
    destruct (missingConfigFields (objectPath_get d p)) eqn:M;
      [|discriminate].
    repeat split; try reflexivity; try assumption.
    now subst st2.
Qed.

Lemma getSiteConfig_loaded_witness :
  exists st' cfg,
    getSiteConfig Sample.reading_world
      (Sample.fresh_request [] [("origin", VStr "http://example.com/")])
      false
    = ([EReadFile "_config.yml"], inr (st', cfg))
    /\ siteConfig st' = Some cfg.
Proof.
  eexists. eexists. split; [reflexivity|].
  destruct (proj2 (getSiteConfig_loaded Sample.reading_world
                     (Sample.fresh_request []
                        [("origin", VStr "http://example.com/")])
                     _ _ _ eq_refl) eq_refl)
    as (file & p & data & _ & _ & _ & _ & _ & _ & _ & _ & H).
  exact H.
Defined.

(** ** The pattern of the placeholders *)

Lemma match_body_inv (s : string) :
  forall b rest,
    match_body s = Some (b, rest) ->
    s = b ++ String "}" rest /\ is_name b = true.
Proof.
  induction s as [|c r IH]; intros b rest H; simpl in H; [discriminate|].
  destruct (c =? "}")%char eqn:C.
  - injection H as <- <-. apply Ascii.eqb_eq in C. subst c. now split.
  - destruct (is_line_terminator c) eqn:L; [discriminate|].
    destruct (match_body r) as [[b' rest']|] eqn:M; [|discriminate].
    injection H as <- <-. destruct (IH b' rest' eq_refl) as [-> N].
    split; [reflexivity|]. unfold is_name in *. simpl.
    apply andb_true_iff in N as [N1 N2]. now rewrite C, L, N1, N2.
Qed.

Lemma matches_from_tokens (s : string) :
  forall skip,
    Forall (fun m => exists b, m = token b /\ is_name b = true)
           (matches_from skip s).
Proof.
  induction s as [|c r IH]; intros skip; simpl; [constructor|].
  destruct skip as [|k]; [|apply IH].
  destruct (c =? "{")%char; [|apply IH].
  destruct (match_body r) as [[b rest]|] eqn:M; [|apply IH].
  constructor; [|apply IH].
  exists b. split; [reflexivity|]. now apply (match_body_inv r b rest).
Qed.

Lemma matches_found (pre b post : string) :
  is_name b = true -> matches_from 0 (pre ++ token b ++ post) <> [].
Proof.
  intros N. induction pre as [|c pre IH].
  - change ("" ++ token b ++ post) with (token b ++ post).
    rewrite matches_token by assumption. discriminate.
  - cbn [append matches_from].
    destruct (c =? "{")%char; [|exact IH].
    destruct (match_body _) as [[b' rest]|]; [discriminate | exact IH].
Qed.

Lemma matches_occurrence (s : string) :
  matches_from 0 s <> [] ->
  exists pre b post, s = pre ++ token b ++ post /\ is_name b = true.
Proof.
  induction s as [|c r IH]; simpl; [congruence|].
  assert (matches_from 0 r <> [] ->
          exists pre b post,
            String c r = pre ++ token b ++ post /\ is_name b = true) as K.
  { intros H. destruct (IH H) as (pre & b & post & -> & N).
    now exists (String c pre), b, post. }
  destruct (c =? "{")%char eqn:C; [|exact K].
  destruct (match_body r) as [[b rest]|] eqn:M; [|exact K].
  intros _. apply Ascii.eqb_eq in C. subst c.
  destruct (match_body_inv r b rest M) as [-> N].
  exists "", b, rest. split; [|exact N].
  unfold token. simpl. now rewrite append_assoc.
Qed.

(** X12.  What the pattern finds.  Every match of [/{(.*?)}/g] is an
    opening brace, a name without closing brace and without line
    terminator, and a closing brace; and there is a match exactly when the
    subject contains such a text. *)
Theorem regex_matches_tokens (subject : string) :
  Forall (fun m => exists b, m = token b /\ is_name b = true)
         (regex_matches subject)
  /\ (regex_matches subject <> [] <->
      exists pre b post,
        subject = pre ++ token b ++ post /\ is_name b = true).
Proof.
  split; [apply matches_from_tokens|]. unfold regex_matches. split.
  - apply matches_occurrence.
  - intros (pre & b & post & -> & N). now apply matches_found.
Qed.

(** ** More on the resolution *)

Lemma no_char_resolved (text : string -> string) (segs : list segment) :
  forallb (plain_segment text) segs = true ->
  no_char "{" (resolved text segs) = true.
Proof.
  induction segs as [|[s|b] segs IH]; intros H; [reflexivity| |];
    cbn [forallb plain_segment] in H; apply andb_true_iff in H as [H1 H2];
    cbn [resolved]; rewrite no_char_append, (IH H2), andb_true_r.
  - exact H1.
  - apply andb_true_iff in H1 as [_ H1]. unfold plain_text in H1.
    now apply andb_true_iff in H1 as [H1 _].
Qed.

(** X13.  A placeholder that names nothing disappears.  In a template
    with one placeholder, whose name is neither [@timestamp] nor [@id] and
    leads to nothing (or to a falsy value) in the context, the placeholder
    is removed and the rest of the template is kept. *)
Theorem resolve_unresolved (w : World) (st : Staticman) (ctx : value)
  (pre b post : string) :
  no_char "{" pre = true -> is_name b = true -> no_char "{" post = true ->
  b <> "@timestamp" -> b <> "@id" ->
  truthy (objectPath_get ctx b) = false ->
  resolvePlaceholders w st (pre ++ token b ++ post) ctx = pre ++ post.
Proof.
  intros Hpre Hb Hpost T I F. rewrite resolve_single by assumption.
  unfold placeholder_text, newText.
  apply String.eqb_neq in T, I. now rewrite T, I, F.
Qed.

Lemma resolve_unresolved_witness :
  resolvePlaceholders Sample.world (Sample.request Sample.site [] [])
    "posts/{options.parent}/new" (context (Sample.request Sample.site [] []) [])
  = "posts//new".
Proof.
  apply (resolve_unresolved Sample.world (Sample.request Sample.site [] [])
           _ "posts/" "options.parent" "/new");
    try reflexivity; discriminate.
Defined.

(** X14.  Resolving a resolved template changes nothing.  For a template
    whose names have no brace and whose replacement texts have neither an
    opening brace nor a dollar, the resolved text has no opening brace
    left, and resolving it again gives it back. *)
Theorem resolve_twice (w : World) (st : Staticman) (ctx : value)
  (segs : list segment) :
  forallb (plain_segment (placeholder_text w st ctx)) segs = true ->
  no_char "{" (resolvePlaceholders w st (render segs) ctx) = true
  /\ resolvePlaceholders w st
       (resolvePlaceholders w st (render segs) ctx) ctx
     = resolvePlaceholders w st (render segs) ctx.
Proof.
  intros H. rewrite resolve_render by assumption.
  pose proof (no_char_resolved _ _ H) as N. split; [exact N|].
  unfold resolvePlaceholders at 1. unfold regex_matches.
  now rewrite matches_none.
Qed.

Lemma resolve_twice_witness :
  let st := Sample.request Sample.site [] [("parent", VStr "123")] in
  resolvePlaceholders Sample.world st
    (resolvePlaceholders Sample.world st (render Sample.sample_template)
       (context st [])) (context st [])
  = resolvePlaceholders Sample.world st (render Sample.sample_template)
      (context st []).
Proof.
  exact (proj2 (resolve_twice Sample.world
                  (Sample.request Sample.site [] [("parent", VStr "123")])
                  (context (Sample.request Sample.site []
                              [("parent", VStr "123")]) [])
                  Sample.sample_template eq_refl)).
Defined.

(** X15.  Dollar sequences of a replacement value.  In a template with
    one placeholder, the value is inserted under the rules of
    [String.prototype.replace]: a value [$&] puts the placeholder back, a
    value [$$] leaves one dollar, and [$`] and [$'] insert what precedes
    and what follows the placeholder. *)
Theorem resolve_dollar (w : World) (st : Staticman) (ctx : value)
  (pre b post : string) :
  no_char "{" pre = true -> is_name b = true -> no_char "{" post = true ->
  let v := placeholder_text w st ctx b in
  let result := resolvePlaceholders w st (pre ++ token b ++ post) ctx in
  (v = "$&" -> result = pre ++ token b ++ post)
  /\ (v = "$$" -> result = pre ++ "$" ++ post)
  /\ (v = "$`" -> result = pre ++ pre ++ post)
  /\ (v = "$'" -> result = pre ++ post ++ post).
Proof.
  intros Hpre Hb Hpost. cbv zeta. rewrite resolve_single by assumption.
  repeat split; intros ->; simpl; rewrite ?append_nil_r; reflexivity.
Qed.

Lemma resolve_dollar_witness :
  resolvePlaceholders Sample.world (Sample.request Sample.site [] [])
    "posts/{fields.sign}.md" Sample.dollar_context
  = "posts/{fields.sign}.md".
Proof.
  apply (proj1 (resolve_dollar Sample.world
                  (Sample.request Sample.site [] []) Sample.dollar_context
                  "posts/" "fields.sign" ".md" eq_refl eq_refl eq_refl)).
  reflexivity.
Defined.

(** ** The constructor and the merge flow *)

Lemma get_nil (k : string) : get [] k = VUndefined.
Proof. reflexivity. Qed.





(** X17.  No configuration path, no run.  On an instance that has no
    site configuration and no configuration path, as the constructor
    leaves it, [processEntry] fails with [NO_CONFIG_PATH] and calls no
    collaborator. *)
Theorem processEntry_without_config_path (w : World) (st : Staticman) :
  siteConfig st = None -> configPath st = None ->
  processEntry w st = ([], inl (ErrCode "NO_CONFIG_PATH")).
Proof.
  intros S C. apply getSiteConfig_inl_trace.
  unfold getSiteConfig. now rewrite S, C.
Qed.

Lemma processEntry_without_config_path_witness :
  processEntry Sample.world (construct Sample.sample_req "abc")
  = ([], inl (ErrCode "NO_CONFIG_PATH")).
Proof.
  exact (processEntry_without_config_path Sample.world
           (construct Sample.sample_req "abc") eq_refl eq_refl).
Defined.



(** ** The defaults of the first pipeline *)

Lemma objectPath_get_default (o : obj) (d : string) :
  In d (keys Legacy.defaultValues) -> objectPath_get (VObj o) d = get o d.
Proof.
  simpl. intros [<- | [<- | [<- | [<- | []]]]]; reflexivity.
Qed.

Lemma get_default_step (o : obj) (d k : string) :
  In d (keys Legacy.defaultValues) ->
  get (Legacy.default_step o d) k
  = if (d =? k) && is_undefined (get o d)
    then get Legacy.defaultValues d else get o k.
Proof.
  intros Hd. unfold Legacy.default_step.
  rewrite (objectPath_get_default o d Hd).
  destruct (is_undefined (get o d)).
  - rewrite get_set, andb_true_r. reflexivity.
  - now rewrite andb_false_r.
Qed.

Lemma default_fold (ks : list string) :
  forall o k,
    NoDup ks -> incl ks (keys Legacy.defaultValues) ->
    get (fold_left Legacy.default_step ks o) k
    = if existsb (String.eqb k) ks && is_undefined (get o k)
      then get Legacy.defaultValues k else get o k.
Proof.
  induction ks as [|d ks IH]; intros o k ND Hin; [reflexivity|].
  inversion ND as [|? ? Hn ND']; subst. cbn [fold_left existsb].
  assert (In d (keys Legacy.defaultValues)) as Hd by (apply Hin; now left).
  rewrite IH; [|assumption | intros x Hx; apply Hin; now right].
  rewrite !get_default_step by assumption.
  rewrite (String.eqb_sym k d). destruct (d =? k) eqn:E.
  - apply String.eqb_eq in E. subst k.
    apply existsb_eqb_notIn in Hn. rewrite Hn. simpl.
    now destruct (is_undefined (get o d)).
  - reflexivity.
Qed.

Lemma default_fold_fixed (ks : list string) (o : obj) :
  incl ks (keys Legacy.defaultValues) ->
  (forall d, In d ks -> is_undefined (get o d) = false) ->
  fold_left Legacy.default_step ks o = o.
Proof.
  induction ks as [|d ks IH]; intros Hin H; [reflexivity|].
  cbn [fold_left]. unfold Legacy.default_step at 2.
  rewrite objectPath_get_default by (apply Hin; now left).
  rewrite (H d) by now left.
  apply IH; [intros x Hx; apply Hin; now right|].
  intros x Hx. apply H. now right.
Qed.

Lemma required_present (o : obj) :
  missingConfigFields (VObj o) = [] ->
  forall r, In r configRequiredFields -> is_undefined (get o r) = false.
Proof.
  intros M r Hr.
  pose proof (filter_nil_false _ _ r M Hr) as F. simpl in F.
  simpl in Hr. destruct Hr as [<- | [<- | [<- | [<- | []]]]]; exact F.
Qed.

Lemma legacy_validate_fixed (o : obj) :
  missingConfigFields (VObj o) = [] ->
  (forall d, In d (keys Legacy.defaultValues) ->
             is_undefined (get o d) = false) ->
  Legacy.validateConfig (VObj o) = inr (VObj o).
Proof.
  intros M H. unfold Legacy.validateConfig. cbn [truthy negb].
  rewrite M. cbn [negb is_nil].
  rewrite default_fold_fixed; [reflexivity | apply incl_refl | exact H].
Qed.

(** X19.  The defaults of the first pipeline.  When its [_validateConfig]
    accepts a configuration, this is an object, and the configuration it
    stores has every value that was there, and the default value for each
    of [commitTitle], [commitMessage], [moderation] and [transforms] that
    was not; validating the stored configuration again leaves it as it
    is. *)
Theorem legacy_defaults (config stored : value) :
  Legacy.validateConfig config = inr stored ->
  exists o o',
    config = VObj o /\ stored = VObj o'
    /\ (forall k, get o' k
                  = if existsb (String.eqb k) (keys Legacy.defaultValues)
                       && is_undefined (get o k)
                    then get Legacy.defaultValues k else get o k)
    /\ Legacy.validateConfig stored = inr stored.
Proof.
  unfold Legacy.validateConfig at 1.
  destruct (truthy config) eqn:T; [|discriminate]. cbn [negb].
  destruct (missingConfigFields config) eqn:M; [|discriminate].
  cbn [negb is_nil].
  destruct config as [| | | | |xs|o|n]; try discriminate.
  - intros [= <-].
    assert (NoDup (keys Legacy.defaultValues)) as ND
      by (apply distinct_NoDup; reflexivity).
    set (o' := fold_left Legacy.default_step (keys Legacy.defaultValues) o).
    assert (forall k, get o' k
                      = if existsb (String.eqb k) (keys Legacy.defaultValues)
                           && is_undefined (get o k)
                        then get Legacy.defaultValues k else get o k) as G.
    { intros k. apply default_fold; [exact ND | apply incl_refl]. }
    exists o, o'. split; [reflexivity|]. split; [reflexivity|].
    split; [exact G|].
    pose proof (required_present o M) as R.
    assert (missingConfigFields (VObj o') = []) as M'.
    { unfold missingConfigFields, configRequiredFields. cbn [filter].
      change (objectPath_get (VObj o') "allowedFields")
        with (get o' "allowedFields").
      change (objectPath_get (VObj o') "branch") with (get o' "branch").
      change (objectPath_get (VObj o') "format") with (get o' "format").
      change (objectPath_get (VObj o') "path") with (get o' "path").
      rewrite !G.
      rewrite (R "allowedFields"), (R "branch"), (R "format"), (R "path")
        by (simpl; auto 6).
      rewrite !andb_false_r.
      rewrite (R "allowedFields"), (R "branch"), (R "format"), (R "path")
        by (simpl; auto 6).
      reflexivity. }
    apply legacy_validate_fixed; [exact M'|].
    intros d Hd. rewrite G. apply existsb_eqb_In in Hd as Hd'. rewrite Hd'.
    simpl. destruct (is_undefined (get o d)) eqn:U; [|exact U].
    simpl in Hd. destruct Hd as [<- | [<- | [<- | [<- | []]]]]; reflexivity.
Qed.

Lemma legacy_defaults_witness :
  exists o',
    Legacy.validateConfig Sample.legacy_config = inr (VObj o')
    /\ get o' "moderation" = VBool false
    /\ get o' "commitTitle" = VStr "Add Staticman entry".
Proof.
  destruct (legacy_defaults Sample.legacy_config _ eq_refl)
    as (o & o' & E & S & G & _).
  eexists. split; [reflexivity|]. split; reflexivity.
Defined.
